(** * event_based_bos: the patch-wise EKLT solver with dependent patches

    A shallow embedding of [src/solver/patch_eklt_dependent.py]
    (class [PatchEkltDependent]) and the properties of its patch selection,
    its parameter decoding, its forward prediction and its optimisation
    loop.  The model comes first, then the instances it is run on, then
    the properties.

    Conventions.
    - Python exceptions are values of [exn]; a call that may raise returns
      a [result].
    - A one-dimensional tensor is a [list] of scalars.  A tensor at patch
      resolution is its shape with its elements in row-major order; a
      dense field is a list of channels, each a list of rows.
    - [float] is the kernel's binary64, which is the [double] of the
      tensors and of Python's [float].
    - A tensor that is named twice and updated in place lives in a store;
      the names hold its location.
    - Collaborators that live outside the file ([crop_event], the cost
      function, autograd and the optimizer of torch, the interpolation and
      warping primitives, [SobelTorch]) are section variables; the
      functions of torch on tensor elements that an arithmetic brings along
      ([torch.sin], [torch.cos], [torch.linalg.norm]) are the methods of a
      class of that arithmetic. *)

From Stdlib Require Import ZArith List Bool Lia Floats Reals Lra Sorted.
From stdpp Require Import base option list gmap.

Set Default Proof Using "Type".
Local Open Scope Z_scope.

(** ** Exceptions and results *)

Inductive exn : Type :=
  | AssertionError
  | IndexError
  | RuntimeError
  | ValueError
  | BackwardError.

Inductive result (A : Type) : Type :=
  | Ok (a : A)
  | Raise (e : exn).
Arguments Ok {A} a.
Arguments Raise {A} e.

#[global] Instance result_ret : MRet result := fun A a => Ok a.
#[global] Instance result_bind : MBind result := fun A B f m =>
  match m with
  | Ok a => f a
  | Raise e => Raise e
  end.
#[global] Instance result_fmap : FMap result := fun A B f m =>
  match m with
  | Ok a => Ok (f a)
  | Raise e => Raise e
  end.

(** [assert c] of Python. *)
Definition py_assert (c : bool) : result unit :=
  if c then Ok tt else Raise AssertionError.

Definition returns {A} (m : result A) : Prop := ∃ a, m = Ok a.

(** ** Patches and the solver object *)

Record Patch : Type := mkPatch {
  x : Z;
  y : Z;
  x_min : Z;
  x_max : Z;
  y_min : Z;
  y_max : Z;
}.

(** The attributes of [self] that the file reads or writes.
    [estimate_indices], [n_parameter_dim] and [iter_cnt] are assigned by
    [estimate]; the others are fixed at construction. *)
Record Solver : Type := mkSolver {
  n_patch : nat;
  patches : list Patch;
  patch_image_size : nat * nat;
  crop_xmin : Z;
  crop_xmax : Z;
  crop_ymin : Z;
  crop_ymax : Z;
  do_event_thresholding : bool;
  event_thres : Z;
  is_poisson_model : bool;
  is_angle_model : bool;
  optimize_warp : bool;
  no_polarity : bool;
  n_iter : nat;
  estimate_indices : list nat;
  n_parameter_dim : nat;
  iter_cnt : nat;
}.

Definition set_estimate_indices (self : Solver) (idx : list nat) : Solver :=
  mkSolver (n_patch self) (patches self) (patch_image_size self)
    (crop_xmin self) (crop_xmax self) (crop_ymin self) (crop_ymax self)
    (do_event_thresholding self) (event_thres self)
    (is_poisson_model self) (is_angle_model self)
    (optimize_warp self) (no_polarity self) (n_iter self)
    idx (n_parameter_dim self) (iter_cnt self).

Definition set_n_parameter_dim (self : Solver) (d : nat) : Solver :=
  mkSolver (n_patch self) (patches self) (patch_image_size self)
    (crop_xmin self) (crop_xmax self) (crop_ymin self) (crop_ymax self)
    (do_event_thresholding self) (event_thres self)
    (is_poisson_model self) (is_angle_model self)
    (optimize_warp self) (no_polarity self) (n_iter self)
    (estimate_indices self) d (iter_cnt self).

Definition incr_iter_cnt (self : Solver) : Solver :=
  mkSolver (n_patch self) (patches self) (patch_image_size self)
    (crop_xmin self) (crop_xmax self) (crop_ymin self) (crop_ymax self)
    (do_event_thresholding self) (event_thres self)
    (is_poisson_model self) (is_angle_model self)
    (optimize_warp self) (no_polarity self) (n_iter self)
    (estimate_indices self) (n_parameter_dim self) (S (iter_cnt self)).

(** [self] with another [event_thres]. *)
Definition with_event_thres (self : Solver) (t : Z) : Solver :=
  mkSolver (n_patch self) (patches self) (patch_image_size self)
    (crop_xmin self) (crop_xmax self) (crop_ymin self) (crop_ymax self)
    (do_event_thresholding self) t
    (is_poisson_model self) (is_angle_model self)
    (optimize_warp self) (no_polarity self) (n_iter self)
    (estimate_indices self) (n_parameter_dim self) (iter_cnt self).

(** [self.patches[i]] *)
Definition patch_at (self : Solver) (i : nat) : result Patch :=
  match patches self !! i with
  | Some p => Ok p
  | None => Raise IndexError
  end.

(** ** The patch activation selector (lines 63-80 of [estimate]) *)

Section Selector.
(** The event stream and [utils.crop_event]. *)
Variable Event : Type.
Variable crop_event : list Event → Z → Z → Z → Z → list Event.

(** The two guards that end in [continue]. *)
Definition skip_x (self : Solver) (p : Patch) : bool :=
  (x p <? crop_xmin self) || (crop_xmax self <? x p).
Definition skip_y (self : Solver) (p : Patch) : bool :=
  (y p <? crop_ymin self) || (crop_ymax self <? y p).

Definition cropped_of (events : list Event) (p : Patch) : list Event :=
  crop_event events (x_min p) (x_max p) (y_min p) (y_max p).

(** [not self.do_event_thresholding or len(cropped) > self.event_thres] *)
Definition enough_events (self : Solver) (cropped : list Event) : bool :=
  negb (do_event_thresholding self)
  || (Z.of_nat (length cropped) >? event_thres self).

(** The body of [for i in range(self.n_patch)], over the indices still to
    visit; [acc] is [self.estimate_indices] so far. *)
Fixpoint select_loop (self : Solver) (events : list Event)
    (range : list nat) (acc : list nat) : result (list nat) :=
  match range with
  | [] => Ok acc
  | i :: range' =>
      p ← patch_at self i;
      if skip_x self p then select_loop self events range' acc
      else if skip_y self p then select_loop self events range' acc
      else
        let cropped := cropped_of events p in
        if enough_events self cropped
        then select_loop self events range' (acc ++ [i])
        else select_loop self events range' acc
  end.

Definition select_indices (self : Solver) (events : list Event)
    : result (list nat) :=
  select_loop self events (seq 0 (n_patch self)) [].

(** The condition under which a patch index is appended, as a predicate
    on the index alone. *)
Definition center_in_roi (self : Solver) (p : Patch) : Prop :=
  crop_xmin self ≤ x p ≤ crop_xmax self
  ∧ crop_ymin self ≤ y p ≤ crop_ymax self.

Definition activeb (self : Solver) (events : list Event) (i : nat) : bool :=
  match patches self !! i with
  | Some p =>
      negb (skip_x self p) && negb (skip_y self p)
      && enough_events self (cropped_of events p)
  | None => false
  end.

End Selector.

(** ** Scalars

    The decoding and prediction code is arithmetic on tensor elements; it is
    written once over the operations it uses.  The instance at [float] is
    the arithmetic the program runs; the instance at [R] is the arithmetic
    it approximates. *)

Class Scalar (A : Type) : Type := {
  s_zero : A;
  s_add : A → A → A;
  s_mul : A → A → A;
  s_div : A → A → A;
  s_abs : A → A;
  s_sqrt : A → A;
  (** the literals [0.0001] and [8.] of the source *)
  s_eps : A;
  s_eight : A;
}.

(** [torch.sin] and [torch.cos], element by element. *)
Class Trig (A : Type) : Type := {
  s_sin : A → A;
  s_cos : A → A;
}.

#[global] Instance float_scalar : Scalar float := {|
  s_zero := 0%float;
  s_add := PrimFloat.add;
  s_mul := PrimFloat.mul;
  s_div := PrimFloat.div;
  s_abs := PrimFloat.abs;
  s_sqrt := PrimFloat.sqrt;
  (* the binary64 nearest to 0.0001 *)
  s_eps := 0x1.a36e2eb1c432dp-14%float;
  s_eight := 8%float;
|}.

#[global] Instance R_scalar : Scalar R := {|
  s_zero := 0%R;
  s_add := Rplus;
  s_mul := Rmult;
  s_div := Rdiv;
  s_abs := Rabs;
  s_sqrt := sqrt;
  s_eps := (1 / 10000)%R;
  s_eight := 8%R;
|}.

#[global] Instance R_trig : Trig R := {| s_sin := sin; s_cos := cos |}.

(** ** Tensors of patch resolution

    A contiguous tensor: its shape and its elements in row-major order.
    [reshape] keeps the elements and changes the shape, as a view does. *)

Record Tensor (A : Type) : Type := mkTensor {
  shape : list nat;
  data : list A;
}.
Arguments mkTensor {A} shape data.
Arguments shape {A} t.
Arguments data {A} t.

Definition numel (sh : list nat) : nat := foldr Nat.mul 1%nat sh.

Section Tensors.
Context {A : Type} `{Scalar A}.

(** [torch.zeros(sh).double()] *)
Definition zeros (sh : list nat) : Tensor A :=
  mkTensor sh (replicate (numel sh) s_zero).

(** [t.reshape(sh)] for a shape without [-1]. *)
Definition reshape (t : Tensor A) (sh : list nat) : result (Tensor A) :=
  if (numel sh =? length (data t))%nat then Ok (mkTensor sh (data t))
  else Raise RuntimeError.

(** Row [r] of [parameters.reshape(-1, dim).T]: the entry at position [r]
    of every block of [dim] parameters. *)
Definition block_entries (dim r : nat) (parameters : list A) : list A :=
  map (λ j, default s_zero (parameters !! (j * dim + r)%nat))
      (seq 0 (length parameters / dim)).

(** [parameters.reshape(-1, dim).T], as the list of its [dim] rows.  torch
    rejects [dim = 0] and a length that [dim] does not divide. *)
Definition reshape_T (dim : nat) (parameters : list A)
    : result (list (list A)) :=
  if (dim =? 0)%nat then Raise RuntimeError
  else if (length parameters mod dim =? 0)%nat
  then Ok (map (λ r, block_entries dim r parameters) (seq 0 dim))
  else Raise RuntimeError.

(** [rows[r]] *)
Definition row_at (rows : list (list A)) (r : nat) : result (list A) :=
  match rows !! r with
  | Some v => Ok v
  | None => Raise IndexError
  end.

(** Broadcasting a one-dimensional value to length [k]: equal length, or
    a single element repeated. *)
Definition broadcast_to (k : nat) (v : list A) : result (list A) :=
  if (length v =? k)%nat then Ok v
  else match v with
       | [a] => Ok (replicate k a)
       | _ => Raise RuntimeError
       end.

(** The flat offsets of [t[r, idx]] in a tensor with rows of length [n];
    an index past the row is an [IndexError]. *)
Fixpoint row_offsets (n r : nat) (idx : list nat) : result (list nat) :=
  match idx with
  | [] => Ok []
  | i :: idx' =>
      if (i <? n)%nat
      then offs ← row_offsets n r idx'; Ok ((r * n + i)%nat :: offs)
      else Raise IndexError
  end.

(** Reading [data] at the offsets. *)
Fixpoint gather (d : list A) (offs : list nat) : result (list A) :=
  match offs with
  | [] => Ok []
  | o :: offs' =>
      match d !! o with
      | Some a => vs ← gather d offs'; Ok (a :: vs)
      | None => Raise IndexError
      end
  end.

(** Writing the values at the offsets, in order: of two writes to one
    offset the later stays. *)
Fixpoint scatter (d : list A) (offs : list nat) (vals : list A) : list A :=
  match offs, vals with
  | o :: offs', a :: vals' => scatter (<[o:=a]> d) offs' vals'
  | _, _ => d
  end.

(** [t[r, idx] += v] on a tensor of shape (c, n): the indexed entries are
    read, [v] is added to that copy, and the copy is written back. *)
Definition iadd_row (t : Tensor A) (n r : nat) (idx : list nat)
    (v : list A) : result (Tensor A) :=
  offs ← row_offsets n r idx;
  cur ← gather (data t) offs;
  v' ← broadcast_to (length idx) v;
  Ok (mkTensor (shape t) (scatter (data t) offs (zip_with s_add cur v'))).

(** [t[:, idx] = v] on a tensor of shape (c, n): every row receives [v]
    at the indexed entries. *)
Fixpoint assign_rows (d : list A) (n : nat) (rows : list nat)
    (idx : list nat) (v : list A) : result (list A) :=
  match rows with
  | [] => Ok d
  | r :: rows' =>
      offs ← row_offsets n r idx;
      assign_rows (scatter d offs v) n rows' idx v
  end.

Definition assign_cols (t : Tensor A) (c n : nat) (idx : list nat)
    (v : list A) : result (Tensor A) :=
  v' ← broadcast_to (length idx) v;
  d ← assign_rows (data t) n (seq 0 c) idx v';
  Ok (mkTensor (shape t) d).

(** [t[None]] and [t[0]] *)
Definition unsqueeze0 (t : Tensor A) : Tensor A :=
  mkTensor (1%nat :: shape t) (data t).

Definition index0 (t : Tensor A) : result (Tensor A) :=
  match shape t with
  | S _ :: sh => Ok (mkTensor sh (take (numel sh) (data t)))
  | _ => Raise IndexError
  end.

(** [t / 8.] *)
Definition div_eight (t : Tensor A) : Tensor A :=
  mkTensor (shape t) (map (λ a, s_div a s_eight) (data t)).

End Tensors.

(** ** The parameter vector codec (lines 178-281) *)

(** A dense field: channels, then rows, then columns. *)
Definition Dense (A : Type) : Type := list (list (list A)).

Section Codec.
Context {A : Type} `{Scalar A} `{Trig A}.

(** [utils.SobelTorch(in_channels=1, precision='64', ksize=self.sobel_ksize,
    padding=self.sobel_padding, ...)], applied to a tensor of shape
    (1, c, h, w). *)
Variable SobelTorch : Tensor A → result (Tensor A).

(** The interpolation primitives of the base class. *)
Variable interpolate_dense_flow_from_patch_tensor :
  Tensor A → result (Dense A).
Variable interpolate_dense_poisson_from_patch_tensor :
  Tensor A → result (Dense A).

(** [poisson_to_flow]: a torch tensor and a numpy array take the same
    path but for the conversions at both ends, which keep the values. *)
Definition poisson_to_flow (poisson : Tensor A) : result (Tensor A) :=
  let poisson :=
    match length (shape poisson) with
    | 2%nat => unsqueeze0 (unsqueeze0 poisson)
    | 3%nat => unsqueeze0 poisson
    | _ => poisson
    end in
  flow ← SobelTorch poisson;
  index0 (div_eight flow).

Definition dim_in (d : nat) (l : list nat) : bool :=
  bool_decide (d ∈ l).

Definition grid_shape (self : Solver) (c : nat) : list nat :=
  [c; fst (patch_image_size self); snd (patch_image_size self)].

Definition _get_patch_flow (self : Solver) (parameters : list A)
    : result (Tensor A) :=
  let dim := n_parameter_dim self in
  reshaped_params ← reshape_T dim parameters;
  if is_poisson_model self then
    _ ← py_assert (dim_in dim [1; 3]%nat);
    let orig_patch_p := zeros [dim; n_patch self] in
    p ← row_at reshaped_params 0;
    orig_patch_p ←
      assign_cols orig_patch_p dim (n_patch self) (estimate_indices self) p;
    grid ← reshape orig_patch_p (grid_shape self dim);
    poisson_to_flow grid
  else
    v ← (if is_angle_model self then
           _ ← py_assert (dim_in dim [1; 3]%nat);
           a ← row_at reshaped_params 0;
           Ok (map s_sin a, map s_cos a)
         else
           _ ← py_assert (dim_in dim [2; 4]%nat);
           v_x ← row_at reshaped_params 0;
           v_y ← row_at reshaped_params 1;
           Ok (v_x, v_y));
    let patch_flow := zeros [2%nat; n_patch self] in
    patch_flow ←
      iadd_row patch_flow (n_patch self) 0 (estimate_indices self) (fst v);
    patch_flow ←
      iadd_row patch_flow (n_patch self) 1 (estimate_indices self) (snd v);
    reshape patch_flow (grid_shape self 2).

Definition _extrapolate_dense_flow_from_estimates (self : Solver)
    (parameters : list A) : result (Dense A) :=
  patch_flow ← _get_patch_flow self parameters;
  grid ← reshape patch_flow (grid_shape self 2);
  interpolate_dense_flow_from_patch_tensor grid.

Definition _get_patch_translation (self : Solver) (parameters : list A)
    : result (Tensor A) :=
  let dim := n_parameter_dim self in
  reshaped_params ← reshape_T dim parameters;
  v ← (if is_poisson_model self then
         _ ← py_assert (dim =? 3)%nat;
         v_x ← row_at reshaped_params 1;
         v_y ← row_at reshaped_params 2;
         Ok (v_x, v_y)
       else if is_angle_model self then
         _ ← py_assert (dim =? 3)%nat;
         v_x ← row_at reshaped_params 1;
         v_y ← row_at reshaped_params 2;
         Ok (v_x, v_y)
       else
         _ ← py_assert (dim =? 4)%nat;
         v_x ← row_at reshaped_params 2;
         v_y ← row_at reshaped_params 3;
         Ok (v_x, v_y));
  let orig_patch_tr := zeros [2%nat; n_patch self] in
  orig_patch_tr ←
    iadd_row orig_patch_tr (n_patch self) 0 (estimate_indices self) (fst v);
  orig_patch_tr ←
    iadd_row orig_patch_tr (n_patch self) 1 (estimate_indices self) (snd v);
  reshape orig_patch_tr (grid_shape self 2).

Definition _extrapolate_dense_translation_from_estimates (self : Solver)
    (parameters : list A) : result (Dense A) :=
  patch_translation ← _get_patch_translation self parameters;
  interpolate_dense_flow_from_patch_tensor patch_translation.

Definition _get_patch_poisson (self : Solver) (parameters : list A)
    : result (Tensor A) :=
  let dim := n_parameter_dim self in
  reshaped_params ← reshape_T dim parameters;
  _ ← py_assert (is_poisson_model self);
  _ ← py_assert (dim_in dim [1; 3]%nat);
  p ← row_at reshaped_params 0;
  let orig_patch_ps := zeros [1%nat; n_patch self] in
  orig_patch_ps ←
    iadd_row orig_patch_ps (n_patch self) 0 (estimate_indices self) p;
  reshape orig_patch_ps (grid_shape self 1).

Definition _extrapolate_dense_poisson_from_estimates (self : Solver)
    (parameters : list A) : result (Dense A) :=
  patch_poisson ← _get_patch_poisson self parameters;
  interpolate_dense_poisson_from_patch_tensor patch_poisson.

End Codec.

(** ** What the codec is expected to keep *)

Section CodecContract.
Context {A : Type} `{Scalar A}.

(** A field of [c] channels over the patch grid that is zero at every patch
    index outside the active set. *)
Definition zero_off (n c : nat) (idx : list nat) (d : list A) : Prop :=
  ∀ ch i, (ch < c)%nat → (i < n)%nat → i ∉ idx →
    d !! (ch * n + i)%nat = Some s_zero.

Definition zero_off_active (self : Solver) (c : nat) (t : Tensor A) : Prop :=
  zero_off (n_patch self) c (estimate_indices self) (data t).

End CodecContract.

(** The dimensions each decode path accepts, by model flag. *)
Definition flow_dim_valid (self : Solver) : bool :=
  if is_poisson_model self || is_angle_model self
  then dim_in (n_parameter_dim self) [1; 3]%nat
  else dim_in (n_parameter_dim self) [2; 4]%nat.

Definition translation_dim_valid (self : Solver) : bool :=
  if is_poisson_model self || is_angle_model self
  then (n_parameter_dim self =? 3)%nat
  else (n_parameter_dim self =? 4)%nat.

Definition poisson_dim_valid (self : Solver) : bool :=
  is_poisson_model self && dim_in (n_parameter_dim self) [1; 3]%nat.

(** ** Slices and element-wise operations on dense fields *)

Definition Matrix (A : Type) : Type := list (list A).

(** A bound of a Python slice on a sequence of length [len]: a negative
    bound counts from the end, and both ends are clamped. *)
Definition slice_bound (len : nat) (i : Z) : nat :=
  if i <? 0 then Z.to_nat (Z.max 0 (i + Z.of_nat len))
  else Z.to_nat (Z.min i (Z.of_nat len)).

(** [l[lo:hi]] *)
Definition py_slice {A} (lo hi : Z) (l : list A) : list A :=
  let a := slice_bound (length l) lo in
  let b := slice_bound (length l) hi in
  take (b - a) (drop a l).

(** [m[x_min:x_max, y_min:y_max]] *)
Definition crop2 {A} (x_min x_max y_min y_max : Z) (m : Matrix A) : Matrix A :=
  map (py_slice y_min y_max) (py_slice x_min x_max m).

Record Roi : Type := mkRoi {
  xmin : Z;
  xmax : Z;
  ymin : Z;
  ymax : Z;
}.

Section Elementwise.
Context {A : Type}.

(** The results of a list of calls, or the first exception. *)
Fixpoint collect {X} (l : list (result X)) : result (list X) :=
  match l with
  | [] => Ok []
  | m :: l' => x ← m; r ← collect l'; Ok (x :: r)
  end.

(** An operation on two one-dimensional tensors, with the broadcasting of
    torch: operands of one length go element by element, and an operand of
    length one is repeated along the other; other lengths are a
    [RuntimeError]. *)
Definition vec_map2 (f : A → A → A) (a b : list A) : result (list A) :=
  if (length a =? length b)%nat then Ok (zip_with f a b)
  else match a, b with
       | [u], _ => Ok (map (f u) b)
       | _, [v] => Ok (map (λ u, f u v) a)
       | _, _ => Raise RuntimeError
       end.

(** The same along both dimensions of two matrices ([a * b], [a + b]).  A
    matrix is the list of its rows: one without rows carries no row
    length, and the row lengths are compared where there are rows. *)
Definition mat_map2 (f : A → A → A) (a b : Matrix A) : result (Matrix A) :=
  if (length a =? length b)%nat then collect (zip_with (vec_map2 f) a b)
  else match a, b with
       | [u], _ => collect (map (vec_map2 f u) b)
       | _, [v] => collect (map (λ r, vec_map2 f r v) a)
       | _, _ => Raise RuntimeError
       end.

(** The operation in place ([a *= b]): the result has the shape of [a], so
    only [b] is repeated. *)
Definition vec_imap2 (f : A → A → A) (a b : list A) : result (list A) :=
  if (length a =? length b)%nat then Ok (zip_with f a b)
  else match b with
       | [v] => Ok (map (λ u, f u v) a)
       | _ => Raise RuntimeError
       end.

Definition mat_imap2 (f : A → A → A) (a b : Matrix A) : result (Matrix A) :=
  if (length a =? length b)%nat then collect (zip_with (vec_imap2 f) a b)
  else match b with
       | [v] => collect (map (λ r, vec_imap2 f r v) a)
       | _ => Raise RuntimeError
       end.

Definition mat_map (f : A → A) (m : Matrix A) : Matrix A := map (map f) m.

(** The element of row [i] and column [j], where there is one, and the
    lengths of the rows. *)
Definition entry (m : Matrix A) (i j : nat) : option A :=
  row ← m !! i; row !! j.

Definition row_lengths (m : Matrix A) : list nat := map length m.
End Elementwise.

(** [torch.linalg.norm] of a matrix.  The reduction that torch runs on a
    tensor of doubles is code of the library, and its rounding is not that
    of a sum taken in any fixed order: the norm is a collaborator of the
    prediction, one for each arithmetic. *)
Class LinalgNorm (A : Type) : Type := {
  linalg_norm : Matrix A → A;
}.

(** ** The forward prediction model (lines 283-307) *)

Section Prediction.
Context {A : Type} `{Scalar A} `{Trig A} `{LinalgNorm A}.

Variable SobelTorch : Tensor A → result (Tensor A).
Variable interpolate_dense_flow_from_patch_tensor :
  Tensor A → result (Dense A).

(** [self._gradient_x_torch] and [self._gradient_y_torch], set with the
    frame. *)
Variable _gradient_x_torch : Matrix A.
Variable _gradient_y_torch : Matrix A.

(** [utils.frame_utils.warp_image_forward] *)
Variable warp_image_forward : Matrix A → Dense A → result (Matrix A).

(** The stages of the prediction, one definition each. *)

(** [flow[0] * gradient_x + flow[1] * gradient_y] *)
Definition flow_dot_gradient (roi_dense_flow : Dense A)
    (gradient_x gradient_y : Matrix A) : result (Matrix A) :=
  f0 ← row_at roi_dense_flow 0;
  a ← mat_map2 s_mul f0 gradient_x;
  f1 ← row_at roi_dense_flow 1;
  b ← mat_map2 s_mul f1 gradient_y;
  mat_map2 s_add a b.

(** [if no_polarity: p = torch.abs(p)] *)
Definition polarity_stage (no_pol : bool) (p : Matrix A) : Matrix A :=
  if no_pol then mat_map s_abs p else p.

(** [if weights is not None: p *= weights] *)
Definition weight_stage (weights : option (Matrix A)) (p : Matrix A)
    : result (Matrix A) :=
  match weights with
  | Some w => mat_imap2 s_mul p w
  | None => Ok p
  end.

(** [p /= torch.linalg.norm(p.clone()) + 0.0001] *)
Definition normalize_stage (p : Matrix A) : Matrix A :=
  let denom := s_add (linalg_norm p) s_eps in
  mat_map (λ v, s_div v denom) p.

(** The gradient crops, warped by the translation field when
    [optimize_warp] is set. *)
Definition roi_gradients (self : Solver) (parameters : list A) (roi : Roi)
    : result (Matrix A * Matrix A) :=
  let gradient_x :=
    crop2 (xmin roi) (xmax roi) (ymin roi) (ymax roi) _gradient_x_torch in
  let gradient_y :=
    crop2 (xmin roi) (xmax roi) (ymin roi) (ymax roi) _gradient_y_torch in
  if optimize_warp self then
    translation ←
      _extrapolate_dense_translation_from_estimates
        interpolate_dense_flow_from_patch_tensor self parameters;
    let roi_translation :=
      map (crop2 (xmin roi) (xmax roi) (ymin roi) (ymax roi)) translation in
    gx ← warp_image_forward gradient_x roi_translation;
    gy ← warp_image_forward gradient_y roi_translation;
    Ok (gx, gy)
  else Ok (gradient_x, gradient_y).

(** The increment before the last division. *)
Definition unnormalized_increment (self : Solver) (parameters : list A)
    (roi : Roi) (weights : option (Matrix A)) : result (Matrix A) :=
  dense_flow ←
    _extrapolate_dense_flow_from_estimates SobelTorch
      interpolate_dense_flow_from_patch_tensor self parameters;
  let roi_dense_flow :=
    map (crop2 (xmin roi) (xmax roi) (ymin roi) (ymax roi)) dense_flow in
  g ← roi_gradients self parameters roi;
  predicted_increment ← flow_dot_gradient roi_dense_flow (fst g) (snd g);
  weight_stage weights (polarity_stage (no_polarity self) predicted_increment).

(** The method as the source writes it: one variable,
    [predicted_increment], updated statement by statement. *)
Definition _make_prediction_torch (self : Solver) (parameters : list A)
    (roi : Roi) (weights : option (Matrix A)) : result (Matrix A) :=
  let x_min := xmin roi in
  let x_max := xmax roi in
  let y_min := ymin roi in
  let y_max := ymax roi in
  let gradient_x := crop2 x_min x_max y_min y_max _gradient_x_torch in
  let gradient_y := crop2 x_min x_max y_min y_max _gradient_y_torch in
  dense_flow ←
    _extrapolate_dense_flow_from_estimates SobelTorch
      interpolate_dense_flow_from_patch_tensor self parameters;
  let roi_dense_flow := map (crop2 x_min x_max y_min y_max) dense_flow in
  g ← (if optimize_warp self then
         translation ←
           _extrapolate_dense_translation_from_estimates
             interpolate_dense_flow_from_patch_tensor self parameters;
         let roi_translation :=
           map (crop2 x_min x_max y_min y_max) translation in
         gradient_x ← warp_image_forward gradient_x roi_translation;
         gradient_y ← warp_image_forward gradient_y roi_translation;
         Ok (gradient_x, gradient_y)
       else Ok (gradient_x, gradient_y));
  let gradient_x := fst g in
  let gradient_y := snd g in
  f0 ← row_at roi_dense_flow 0;
  a ← mat_map2 s_mul f0 gradient_x;
  f1 ← row_at roi_dense_flow 1;
  b ← mat_map2 s_mul f1 gradient_y;
  predicted_increment ← mat_map2 s_add a b;
  let predicted_increment :=
    if no_polarity self then mat_map s_abs predicted_increment
    else predicted_increment in
  predicted_increment ←
    match weights with
    | Some w => mat_imap2 s_mul predicted_increment w
    | None => Ok predicted_increment
    end;
  let n := s_add (linalg_norm predicted_increment) s_eps in
  Ok (mat_map (λ v, s_div v n) predicted_increment).

End Prediction.

(** A zero of either sign. *)
Definition float_zero (v : float) : Prop := PrimFloat.is_zero v = true.

(** A binary64 value, as the specification of the kernel's floats has it,
    that is a NaN or has its sign bit clear. *)
Definition sign_clear (x : spec_float) : Prop :=
  match x with
  | S754_nan => True
  | S754_zero s | S754_infinity s | S754_finite s _ _ => s = false
  end.

Definition all_entries (P : float → Prop) (m : Matrix float) : Prop :=
  Forall (Forall P) m.

(** ** Tensor objects

    [x0] and [best_x] of [estimate] are names for tensor objects; the
    optimizer of torch updates the tensor it was given in place (spec, §3:
    the parameter vector is mutated in place by the optimizer step).  The
    objects live in a store, and a name holds a location. *)

Definition loc : Type := nat.

Record Param (A : Type) : Type := mkParam {
  value : list A;
  grad : option (list A);
}.
Arguments mkParam {A} value grad.
Arguments value {A} p.
Arguments grad {A} p.

#[global] Instance Param_inhabited A : Inhabited (Param A) :=
  populate (mkParam [] None).

Record Store (A : Type) : Type := mkStore {
  cells : gmap loc (Param A);
  next : loc;
}.
Arguments mkStore {A} cells next.
Arguments cells {A} s.
Arguments next {A} s.

Section StoreOps.
Context {A : Type}.

Definition empty_store : Store A := mkStore ∅ 0%nat.

(** A new tensor object. *)
Definition alloc (s : Store A) (p : Param A) : loc * Store A :=
  (next s, mkStore (<[next s := p]> (cells s)) (S (next s))).

Definition read (s : Store A) (l : loc) : Param A := cells s !!! l.

Definition write (s : Store A) (l : loc) (p : Param A) : Store A :=
  mkStore (<[l := p]> (cells s)) (next s).

(** [t.clone().detach()]: a new object with the values of [t]. *)
Definition clone_detach (s : Store A) (l : loc) : loc * Store A :=
  alloc s (mkParam (value (read s l)) None).

End StoreOps.

(** [lr, lr_decay = 0.05, 0.1]: the binary64 nearest to each. *)
Definition lr : float := 0x1.999999999999ap-5%float.
Definition lr_decay : float := 0x1.999999999999ap-4%float.

(** [np.concatenate(arrays)] of one-dimensional arrays; numpy refuses the
    empty list. *)
Definition np_concatenate {A} (arrays : list (list A)) : result (list A) :=
  match arrays with
  | [] => Raise ValueError
  | _ => Ok (concat arrays)
  end.

(** ** The optimisation loop and [estimate] (lines 53-137) *)

Section Estimate.
Context {A : Type} `{Scalar A} `{Trig A} `{LinalgNorm A}.

Variable Event : Type.
Variable crop_event : list Event → Z → Z → Z → Z → list Event.
Variable SobelTorch : Tensor A → result (Tensor A).
Variable interpolate_dense_flow_from_patch_tensor :
  Tensor A → result (Dense A).
Variable interpolate_dense_poisson_from_patch_tensor :
  Tensor A → result (Dense A).
Variable _gradient_x_torch : Matrix A.
Variable _gradient_y_torch : Matrix A.
Variable warp_image_forward : Matrix A → Dense A → result (Matrix A).

(** [self._initialize_velocity()], the initial guess of one patch. *)
Variable _initialize_velocity : list A.

(** [self._make_measured_increment(events, roi)] *)
Variable _make_measured_increment :
  Solver → list Event → Roi → result (Matrix A * option (Matrix A)).

(** [self.cost_func], and the reverse pass of autograd from the loss to
    the gradient of the parameters. *)
Variable cost_func : Matrix A → Matrix A → option (Matrix A) → result float.
Variable loss_backward :
  Solver → list A → Matrix A → Roi → option (Matrix A) → result (list A).

(** The optimizer of [torch.optim] chosen by [self._opt_method], with its
    [StepLR] scheduler: the state, the state at construction from the
    learning rate, the step size of the scheduler and its decay, and the
    two [step] methods.  [optimizer_step] maps the parameters and their
    gradient to the new parameters. *)
Variable Optimizer : Type.
Variable optimizer_new : float → nat → float → Optimizer.
Variable optimizer_step : Optimizer → list A → list A → Optimizer * list A.
Variable scheduler_step : Optimizer → Optimizer.

(** [logger.isEnabledFor(logging.DEBUG)] and the video sink. *)
Variable debug_enabled : bool.
Variable visualize_flow : Dense A → result unit.
Variable visualize_poisson : Dense A → result unit.
Variable visualize_diff : Matrix A → Matrix A → result unit.

Abbreviation prediction :=
  (_make_prediction_torch SobelTorch interpolate_dense_flow_from_patch_tensor
     _gradient_x_torch _gradient_y_torch warp_image_forward).
Abbreviation dense_flow_of :=
  (_extrapolate_dense_flow_from_estimates SobelTorch
     interpolate_dense_flow_from_patch_tensor).

(** Modelled from the spec: [_objective_scipy] is a method of the base
    class [GenerativeMaximumLikelihood], which is not in this file.  The
    loss is the cost between the output of the forward prediction model
    and the measured increment, with the optional weights (spec, §4.5). *)
Definition _objective_scipy (self : Solver) (params : list A)
    (measured_increment : Matrix A) (roi : Roi)
    (weights : option (Matrix A)) : result float :=
  p ← prediction self params roi weights;
  cost_func p measured_increment weights.

(** Lines 139-176.  The arrays go to the video maker; what the method
    leaves behind for its caller is whether it returned. *)
Definition visualize_evolution (self : Solver) (params : list A)
    (measurement : Matrix A) (weights : option (Matrix A)) (roi : Roi)
    : result unit :=
  if negb debug_enabled then Ok tt
  else
    p ← prediction self params roi weights;
    dense_flow ← dense_flow_of self params;
    let crop :=
      crop2 (crop_xmin self) (crop_xmax self)
            (crop_ymin self) (crop_ymax self) in
    _ ← visualize_flow (map crop dense_flow);
    _ ← (if optimize_warp self then
           translation ←
             _extrapolate_dense_translation_from_estimates
               interpolate_dense_flow_from_patch_tensor self params;
           visualize_flow (map crop translation)
         else Ok tt);
    _ ← (if is_poisson_model self then
           dense_poisson ←
             _extrapolate_dense_poisson_from_estimates
               interpolate_dense_poisson_from_patch_tensor self params;
           visualize_poisson (map crop dense_poisson)
         else Ok tt);
    visualize_diff p measurement.

(** The local variables of the loop that outlive an iteration. *)
Record LoopState : Type := mkLoopState {
  store : Store A;
  optimizer : Optimizer;
  best_x : loc;
  best_it : nat;
  min_loss : float;
  logged : list exn;
}.

(** [for it in range(iters)], over the iterations still to run.  [x0] is
    the location of the parameter tensor. *)
Fixpoint optimize (self : Solver) (x0 : loc) (measured_increment : Matrix A)
    (roi : Roi) (weights : option (Matrix A)) (range : list nat)
    (st : LoopState) : result LoopState :=
  match range with
  | [] => Ok st
  | it :: range' =>
      (* optimizer.zero_grad() *)
      let s := write (store st) x0
                 (mkParam (value (read (store st) x0)) None) in
      loss ←
        _objective_scipy self (value (read s x0)) measured_increment roi weights;
      _ ← visualize_evolution self (value (read s x0))
            measured_increment weights roi;
      (* if loss < min_loss: best_x = x0; min_loss = loss.item(); best_it = it *)
      let best :=
        if (loss <? min_loss st)%float then (x0, it, loss)
        else (best_x st, best_it st, min_loss st) in
      match loss_backward self (value (read s x0))
              measured_increment roi weights with
      | Raise e =>
          (* logger.error(e); break *)
          Ok (mkLoopState s (optimizer st)
                best.1.1 best.1.2 best.2 (logged st ++ [e]))
      | Ok g =>
          let s := write s x0 (mkParam (value (read s x0)) (Some g)) in
          (* optimizer.step() *)
          let r := optimizer_step (optimizer st) (value (read s x0)) g in
          let s := write s x0 (mkParam r.2 (Some g)) in
          (* scheduler.step() *)
          let o := scheduler_step r.1 in
          optimize self x0 measured_increment roi weights range'
            (mkLoopState s o best.1.1 best.1.2 best.2 (logged st))
      end
  end.

Definition roi_of (self : Solver) : Roi :=
  mkRoi (crop_xmin self) (crop_xmax self) (crop_ymin self) (crop_ymax self).

(** [estimate].  The frame and the event cache of the first lines belong
    to the base class and reach this file through the gradients and the
    measured increment; the calls after the reconstruction write the loss
    history and the video. *)
Definition estimate (self : Solver) (events : list Event)
    : result (Dense A * Solver) :=
  idx ← select_indices Event crop_event self events;
  let self := set_estimate_indices self idx in
  let n_parameter_patch := length (estimate_indices self) in
  let self := set_n_parameter_dim self (length _initialize_velocity) in
  x0 ← np_concatenate (replicate n_parameter_patch _initialize_velocity);
  let a := alloc empty_store (mkParam x0 None) in
  let x0 := a.1 in
  let roi := roi_of self in
  m ← _make_measured_increment self events roi;
  let measured_increment := m.1 in
  let weights := m.2 in
  let iters := n_iter self in
  let lr_step := iters in
  let optimizer := optimizer_new lr lr_step lr_decay in
  st ← optimize self x0 measured_increment roi weights (seq 0 iters)
         (mkLoopState a.2 optimizer x0 0 infinity []);
  let c := clone_detach (store st) (best_x st) in
  let best_x := c.1 in
  dense_flow ← dense_flow_of self (value (read c.2 best_x));
  Ok (dense_flow, incr_iter_cnt self).

(** ** The iterates of the loop *)

(** [self] after the selection, as the loop sees it. *)
Definition prepared (self : Solver) (idx : list nat) : Solver :=
  set_n_parameter_dim (set_estimate_indices self idx)
    (length _initialize_velocity).

(** The parameter vector before the first optimizer step. *)
Definition initial_parameters (idx : list nat) : list A :=
  concat (replicate (length idx) _initialize_velocity).

(** The state of the loop at its entry; the parameter tensor is the first
    object of the store. *)
Definition initial_state (self : Solver) (idx : list nat)
    : LoopState :=
  mkLoopState
    (alloc empty_store (mkParam (initial_parameters idx) None)).2
    (optimizer_new lr (n_iter self) lr_decay) 0%nat 0%nat infinity [].

(** An iteration that runs in full, as a map on the values of the
    parameter tensor and the state of the optimizer: no effect when the
    objective, the visualisation or the backward pass raises. *)
Definition full_iteration (self : Solver) (measured_increment : Matrix A)
    (roi : Roi) (weights : option (Matrix A)) (xo : list A * Optimizer)
    : option (list A * Optimizer) :=
  match _objective_scipy self xo.1 measured_increment roi weights with
  | Ok _ =>
      match visualize_evolution self xo.1 measured_increment weights roi with
      | Ok _ =>
          match loss_backward self xo.1 measured_increment roi weights with
          | Ok g =>
              let r := optimizer_step xo.2 xo.1 g in
              Some (r.2, scheduler_step r.1)
          | Raise _ => None
          end
      | Raise _ => None
      end
  | Raise _ => None
  end.

(** The iterate of iteration [k]: the parameters and the optimizer at the
    top of that iteration, when every iteration before it ran in full. *)
Fixpoint iterate (self : Solver) (measured_increment : Matrix A) (roi : Roi)
    (weights : option (Matrix A)) (k : nat) (xo : list A * Optimizer)
    : option (list A * Optimizer) :=
  match k with
  | O => Some xo
  | S k' =>
      full_iteration self measured_increment roi weights xo
      ≫= iterate self measured_increment roi weights k'
  end.

(** The backward pass of an iteration is reached and raises [e]. *)
Definition backward_raises (self : Solver) (measured_increment : Matrix A)
    (roi : Roi) (weights : option (Matrix A)) (xo : list A * Optimizer)
    (e : exn) : Prop :=
  ∃ l, _objective_scipy self xo.1 measured_increment roi weights = Ok l
       ∧ visualize_evolution self xo.1 measured_increment weights roi = Ok tt
       ∧ loss_backward self xo.1 measured_increment roi weights = Raise e.

(** What the parameter tensor holds and the optimizer, in a state of the
    loop. *)
Definition current (x0 : loc) (st : LoopState)
    : list A * Optimizer :=
  (value (read (store st) x0), optimizer st).

End Estimate.

(** * Instances

    One patch on a grid of one pixel, the plain velocity model, and the
    collaborators made concrete: the squared error as cost, its gradient
    through the normalization as the backward pass, and gradient descent
    with [StepLR] as the optimizer.  All of it runs on binary64. *)

(** The kernel's binary64 has neither sine nor cosine.  The instances below
    run the velocity and the intensity model, which call neither; a call
    would show as a NaN. *)
#[local] Instance float_trig_unused : Trig float :=
  {| s_sin := λ _, nan; s_cos := λ _, nan |}.

(** The kernel's binary64 has no [torch.linalg.norm] either.  Of one
    element the norm is its absolute value; of more elements the instance
    takes the root of the sum of the squares in list order, which the
    reduction of torch need not match in the last bit.  The predictions of
    the instances below have one pixel. *)
#[local] Instance float_norm : LinalgNorm float :=
  {| linalg_norm m :=
       match concat m with
       | [v] => PrimFloat.abs v
       | l => PrimFloat.sqrt (foldl (λ acc v, acc + v * v)%float 0%float l)
       end |}.

Definition ex_patch : Patch := mkPatch 0 0 0 1 0 1.

Definition ex_solver (iters : nat) : Solver :=
  mkSolver 1 [ex_patch] (1%nat, 1%nat) 0 1 0 1 false 0
    false false false false iters [] 0 0.

Definition ex_crop_event (ev : list unit) (_ _ _ _ : Z) : list unit := ev.

Definition ex_sobel (t : Tensor float) : result (Tensor float) := Ok t.

(** One pixel per patch: every channel is its single value. *)
Definition ex_interpolate (t : Tensor float) : result (Dense float) :=
  Ok (map (λ v, [[v]]) (data t)).

Definition ex_gx : Matrix float := [[1%float]].
Definition ex_gy : Matrix float := [[0%float]].

Definition ex_warp (g : Matrix float) (_ : Dense float)
    : result (Matrix float) := Ok g.

Definition ex_init : list float := [0%float; 0%float].

Definition ex_measured (target : float) (_ : Solver) (_ : list unit)
    (_ : Roi) : result (Matrix float * option (Matrix float)) :=
  Ok ([[target]], None).

(** The squared error of the one pixel. *)
Definition ex_cost (p m : Matrix float) (_ : option (Matrix float))
    : result float :=
  match p, m with
  | [[a]], [[b]] => Ok ((a - b) * (a - b))%float
  | _, _ => Raise RuntimeError
  end.

(** The gradient of [ex_cost] through the normalization
    [vx / (|vx| + 0.0001)], unless [fails] says that the pass raises. *)
Definition ex_backward (fails : float → bool) (_ : Solver) (x : list float)
    (m : Matrix float) (_ : Roi) (_ : option (Matrix float))
    : result (list float) :=
  match x, m with
  | [vx; vy], [[t]] =>
      if fails vx then Raise BackwardError
      else
        let n := (abs vx + s_eps)%float in
        Ok [(2 * (vx / n - t) * (s_eps / (n * n)))%float; 0%float]
  | _, _ => Raise RuntimeError
  end.

(** [torch.optim.SGD] with [StepLR]. *)
Record Sgd : Type := mkSgd {
  rate : float;
  epoch : nat;
  step_size : nat;
  gamma : float;
}.

Definition sgd_new (rate0 : float) (step : nat) (g : float) : Sgd :=
  mkSgd rate0 0 step g.

Definition sgd_step (o : Sgd) (x g : list float) : Sgd * list float :=
  (o, zip_with (λ xi gi, (xi - rate o * gi)%float) x g).

Definition step_lr (o : Sgd) : Sgd :=
  let e := S (epoch o) in
  if negb (step_size o =? 0)%nat && (e mod step_size o =? 0)%nat
  then mkSgd (rate o * gamma o)%float e (step_size o) (gamma o)
  else mkSgd (rate o) e (step_size o) (gamma o).

Definition ex_sink_d (_ : Dense float) : result unit := Ok tt.
Definition ex_sink_m (_ _ : Matrix float) : result unit := Ok tt.

Definition ex_estimate (target : float) (fails : float → bool) (iters : nat)
    : result (Dense float * Solver) :=
  estimate unit ex_crop_event ex_sobel ex_interpolate ex_interpolate
    ex_gx ex_gy ex_warp ex_init (ex_measured target) ex_cost
    (ex_backward fails) Sgd sgd_new sgd_step step_lr
    false ex_sink_d ex_sink_d ex_sink_m (ex_solver iters) [].

Definition ex_optimize (target : float) (fails : float → bool) (iters : nat)
    : result (LoopState Sgd) :=
  optimize ex_sobel ex_interpolate ex_interpolate ex_gx ex_gy ex_warp
    ex_cost (ex_backward fails) Sgd sgd_step step_lr
    false ex_sink_d ex_sink_d ex_sink_m
    (prepared ex_init (ex_solver iters) [0%nat]) 0%nat
    [[target]] (mkRoi 0 1 0 1) None (seq 0 iters)
    (initial_state ex_init Sgd sgd_new (ex_solver iters) [0%nat]).

Definition ex_objective (target : float) (iters : nat) (params : list float)
    : result float :=
  _objective_scipy ex_sobel ex_interpolate ex_gx ex_gy ex_warp ex_cost
    (prepared ex_init (ex_solver iters) [0%nat]) params
    [[target]] (mkRoi 0 1 0 1) None.

Definition ex_reconstruct (iters : nat) (params : list float)
    : result (Dense float) :=
  _extrapolate_dense_flow_from_estimates ex_sobel ex_interpolate
    (prepared ex_init (ex_solver iters) [0%nat]) params.

Definition ex_backward_raises (target : float) (fails : float → bool)
    (iters : nat) (xo : list float * Sgd) (e : exn) : Prop :=
  backward_raises ex_sobel ex_interpolate ex_interpolate ex_gx ex_gy ex_warp
    ex_cost (ex_backward fails) Sgd
    false ex_sink_d ex_sink_d ex_sink_m
    (prepared ex_init (ex_solver iters) [0%nat])
    [[target]] (mkRoi 0 1 0 1) None xo e.

Definition ex_iterate (target : float) (fails : float → bool) (iters k : nat)
    : option (list float * Sgd) :=
  iterate ex_sobel ex_interpolate ex_interpolate ex_gx ex_gy ex_warp
    ex_cost (ex_backward fails) Sgd sgd_step step_lr
    false ex_sink_d ex_sink_d ex_sink_m
    (prepared ex_init (ex_solver iters) [0%nat])
    [[target]] (mkRoi 0 1 0 1) None k
    (initial_parameters ex_init [0%nat], sgd_new lr iters lr_decay).

(** The targets 0.4 and 0.9, as the binary64 nearest to each. *)
Definition target_04 : float := 0x1.999999999999ap-2%float.
Definition target_09 : float := 0x1.ccccccccccccdp-1%float.

Definition never (_ : float) : bool := false.
Definition always (_ : float) : bool := true.
Definition above_100 (v : float) : bool := (100 <? v)%float.

(** ** The selector at an instance

    Three patches and a region of interest [0, 5] × [0, 5], with the
    threshold at 10: the first patch has its centre on the bound
    [x = crop_xmin] and 11 events in its box, the second its centre on the
    bounds [x = crop_xmax] and [y = crop_ymax] and 9 events, the third lies
    outside. *)

Definition crop_box (ev : list (Z * Z)) (x_min x_max y_min y_max : Z)
    : list (Z * Z) :=
  List.filter
    (λ e, (x_min <=? e.1) && (e.1 <? x_max) && (y_min <=? e.2) && (e.2 <? y_max))
    ev.

Definition sel_patches : list Patch :=
  [mkPatch 0 2 0 4 0 4; mkPatch 5 5 3 7 3 7; mkPatch 9 2 7 11 0 4].

Definition sel_solver : Solver :=
  mkSolver 3 sel_patches (1%nat, 3%nat) 0 5 0 5 true 10
    false false false false 1 [] 0 0.

Definition sel_events : list (Z * Z) :=
  replicate 11 (1, 1) ++ replicate 9 (5, 5).

(** ** The codec at instances *)

(** Modelled from the spec: [utils.SobelTorch] is not in this file.  The
    spec (§4.3a) has it apply a discrete gradient of Sobel type to a
    single-channel field and produce the two channels of the x and the y
    component.  Here, the 3 × 3 kernels with zero padding, on a tensor of
    shape (1, 1, h, w). *)
Definition sobel_pixel (h w : nat) (d : list float) (r c : Z) : float :=
  if (0 <=? r) && (r <? Z.of_nat h) && (0 <=? c) && (c <? Z.of_nat w)
  then default 0%float (d !! Z.to_nat (r * Z.of_nat w + c))
  else 0%float.

Definition sobel_x (h w : nat) (d : list float) (r c : Z) : float :=
  let p := sobel_pixel h w d in
  let up := r - 1 in
  let down := r + 1 in
  let left := c - 1 in
  let right := c + 1 in
  ((p up right + 2 * p r right + p down right)
   - (p up left + 2 * p r left + p down left))%float.

Definition sobel_y (h w : nat) (d : list float) (r c : Z) : float :=
  let p := sobel_pixel h w d in
  let up := r - 1 in
  let down := r + 1 in
  let left := c - 1 in
  let right := c + 1 in
  ((p down left + 2 * p down c + p down right)
   - (p up left + 2 * p up c + p up right))%float.

Definition sobel3 (t : Tensor float) : result (Tensor float) :=
  match shape t with
  | [1%nat; 1%nat; h; w] =>
      if (length (data t) =? h * w)%nat then
        let at_pixel (f : Z → Z → float) (k : nat) : float :=
          f (Z.of_nat (k / w)) (Z.of_nat (k mod w)) in
        Ok (mkTensor [1%nat; 2%nat; h; w]
              (map (at_pixel (sobel_x h w (data t))) (seq 0 (h * w))
               ++ map (at_pixel (sobel_y h w (data t))) (seq 0 (h * w))))
      else Raise RuntimeError
  | _ => Raise RuntimeError
  end.

(** Two patches side by side; the first is active. *)
Definition two_patches (poisson : bool) (dim : nat) : Solver :=
  mkSolver 2 [mkPatch 0 0 0 1 0 1; mkPatch 1 0 1 2 0 1] (1%nat, 2%nat)
    0 2 0 1 false 0 poisson false false false 1 [0%nat] dim 0.

(** One patch with the angle model. *)
Definition angle_solver : Solver :=
  mkSolver 1 [ex_patch] (1%nat, 1%nat) 0 1 0 1 false 0
    false true false false 1 [0%nat] 1 0.

(** One active patch with two parameters and [no_polarity] set. *)
Definition abs_solver : Solver :=
  mkSolver 1 [ex_patch] (1%nat, 1%nat) 0 1 0 1 false 0
    false false false true 1 [0%nat] 2 0.

(** [torch.sin] and [torch.cos] on doubles at the angle 3.0: the doubles
    nearest to the sine and the cosine of 3.  The kernel's binary64
    computes neither function; at every other argument the table has no
    entry and gives a NaN, which is what both functions return for a
    NaN. *)
Definition sin_cos_at_three : Trig float :=
  {| s_sin x :=
       if (x =? 3)%float then 0x1.210386db6d55bp-3%float else nan;
     s_cos x :=
       if (x =? 3)%float then (-0x1.fae04be85e5d2p-1)%float else nan |}.

(** The patch flow of the one patch with the angle model, at one angle. *)
Definition angle_flow_at (θ : float) : result (Tensor float) :=
  @_get_patch_flow float float_scalar sin_cos_at_three ex_sobel
    angle_solver [θ].

(** A measured increment of two pixels, which the cost of one pixel
    refuses. *)
Definition ex_measured_wide (_ : Solver) (_ : list unit) (_ : Roi)
    : result (Matrix float * option (Matrix float)) :=
  Ok ([[0%float; 0%float]], None).

(** The one patch, with the region of interest away from it. *)
Definition ex_solver_outside : Solver :=
  mkSolver 1 [ex_patch] (1%nat, 1%nat) 5 6 5 6 false 0
    false false false false 1 [] 0 0.

(** * Properties *)

(** ** The patch activation selector *)

Section SelectorProperties.
Variable Event : Type.
Variable crop_event : list Event → Z → Z → Z → Z → list Event.

Abbreviation select := (select_indices Event crop_event).
Abbreviation sel_loop := (select_loop Event crop_event).
Abbreviation cropped := (cropped_of Event crop_event).
Abbreviation active := (activeb Event crop_event).

Lemma select_loop_filter self events range acc idx :
  sel_loop self events range acc = Ok idx →
  idx = acc ++ List.filter (active self events) range.
Proof.
  revert acc. induction range as [|i range IH]; intros acc; simpl.
  - intros [= <-]. by rewrite app_nil_r.
  - unfold patch_at, activeb at 1.
    destruct (patches self !! i) as [p|] eqn:Hp; simpl; [|done].
    destruct (skip_x self p) eqn:Hx; simpl; [by apply IH|].
    destruct (skip_y self p) eqn:Hy; simpl; [by apply IH|].
    destruct (enough_events Event self (cropped events p)) eqn:He;
      intros H; rewrite (IH _ H); [|done].
    by rewrite <- app_assoc.
Qed.

(** The loop runs to its end when every index of the range has a patch. *)
Lemma select_loop_returns self events range acc :
  (∀ i, i ∈ range → (i < length (patches self))%nat) →
  returns (sel_loop self events range acc).
Proof.
  revert acc. induction range as [|i range IH]; intros acc Hr; simpl.
  - by eexists.
  - unfold patch_at.
    destruct (lookup_lt_is_Some_2 (patches self) i) as [p ->].
    { apply Hr. by left. }
    simpl.
    assert (∀ a, returns (sel_loop self events range a)) as IH'.
    { intros a. apply IH. intros j Hj. apply Hr. by right. }
    destruct (skip_x self p); [apply IH'|].
    destruct (skip_y self p); [apply IH'|].
    destruct (enough_events Event self _); apply IH'.
Qed.

Lemma skip_false_iff self p :
  skip_x self p = false ∧ skip_y self p = false ↔ center_in_roi self p.
Proof.
  unfold skip_x, skip_y, center_in_roi.
  rewrite !orb_false_iff, !Z.ltb_ge. lia.
Qed.

Lemma enough_events_iff self (c : list Event) :
  enough_events Event self c = true
  ↔ do_event_thresholding self = false ∨ event_thres self < Z.of_nat (length c).
Proof.
  unfold enough_events.
  rewrite orb_true_iff, negb_true_iff, Z.gtb_ltb, Z.ltb_lt. done.
Qed.

Lemma active_iff self events i :
  active self events i = true
  ↔ ∃ p, patches self !! i = Some p ∧ center_in_roi self p
         ∧ (do_event_thresholding self = false
            ∨ event_thres self < Z.of_nat (length (cropped events p))).
Proof.
  unfold activeb. destruct (patches self !! i) as [p|]; split.
  - rewrite !andb_true_iff, !negb_true_iff. intros [[Hx Hy] He].
    exists p. split; [done|]. split; [by apply skip_false_iff|].
    by apply enough_events_iff.
  - intros (q & [= <-] & Hc & He).
    apply skip_false_iff in Hc as [-> ->]. simpl.
    by apply enough_events_iff.
  - done.
  - by intros (q & ? & _).
Qed.

Lemma select_filter self events idx :
  select self events = Ok idx →
  idx = List.filter (active self events) (seq 0 (n_patch self)).
Proof. intros Hs. by apply select_loop_filter in Hs. Qed.

Lemma select_returns self events :
  (n_patch self ≤ length (patches self))%nat → returns (select self events).
Proof.
  intros Hn. apply select_loop_returns. intros i Hi.
  apply list_elem_of_In, in_seq in Hi. lia.
Qed.

Lemma elem_of_select self events idx i :
  select self events = Ok idx →
  i ∈ idx ↔ (i < n_patch self)%nat ∧ active self events i = true.
Proof.
  intros Hs. rewrite (select_filter _ _ _ Hs).
  rewrite list_elem_of_In, filter_In, in_seq.
  split; [intros [[_ ?] ?]|intros [? ?]]; (split; [|done]); simpl; lia.
Qed.

(** C3.  When every index of the grid has a patch, the selection loop of
    [estimate] returns, and patch [i] is in [estimate_indices] exactly when
    its centre lies within the bounds of the region of interest and either
    thresholding is off or the events cropped to its bounding box number
    more than [event_thres]; the indices come in grid order.  With
    thresholding on and [event_thres = 10], a patch with 9 cropped events
    is left out, and a patch within the bounds with 11 is taken. *)
Theorem estimate_indices_iff (self : Solver) (events : list Event) :
  (n_patch self ≤ length (patches self))%nat →
  ∃ idx, select_indices Event crop_event self events = Ok idx
    ∧ idx = List.filter (active self events) (seq 0 (n_patch self))
    ∧ (∀ i, i ∈ idx ↔
         ∃ p, (i < n_patch self)%nat ∧ patches self !! i = Some p
              ∧ center_in_roi self p
              ∧ (do_event_thresholding self = false
                 ∨ event_thres self < Z.of_nat (length (cropped events p))))
    ∧ (do_event_thresholding self = true → event_thres self = 10 →
       ∀ i p, (i < n_patch self)%nat → patches self !! i = Some p →
         (length (cropped events p) = 9%nat → i ∉ idx)
         ∧ (center_in_roi self p → length (cropped events p) = 11%nat →
            i ∈ idx)).
Proof.
  intros Hn. destruct (select_returns self events Hn) as [idx Hs].
  exists idx. split; [done|]. split; [by apply select_filter|].
  assert (∀ i, i ∈ idx ↔
         ∃ p, (i < n_patch self)%nat ∧ patches self !! i = Some p
              ∧ center_in_roi self p
              ∧ (do_event_thresholding self = false
                 ∨ event_thres self < Z.of_nat (length (cropped events p))))
    as Hiff.
  { intros i. rewrite (elem_of_select _ _ _ i Hs), active_iff.
    split; [intros [Hi (p & Hp)]; exists p; tauto|].
    intros (p & Hi & Hp); split; [done|]. exists p; tauto. }
  split; [done|].
  intros Hthr Hten i p Hi Hp. split.
  - intros H9 (q & _ & Hq & _ & Hc)%Hiff.
    assert (q = p) as -> by congruence.
    destruct Hc as [Hc|Hc]; [congruence|]. rewrite H9, Hten in Hc. lia.
  - intros Hroi H11. apply Hiff. exists p.
    repeat split; try done; try apply Hroi.
    right. rewrite H11, Hten. lia.
Qed.

(** C10.  A patch whose centre is on a bound of the region of interest
    ([x = crop_xmin], [x = crop_xmax], [y = crop_ymin] or [y = crop_ymax],
    the other coordinate within its bounds) passes both guards: the
    comparisons are strict.  It is then in [estimate_indices] exactly when
    the event test lets it in. *)
Theorem roi_bound_is_inclusive (self : Solver) (events : list Event)
    (idx : list nat) (i : nat) (p : Patch) :
  select_indices Event crop_event self events = Ok idx →
  (i < n_patch self)%nat →
  patches self !! i = Some p →
  center_in_roi self p →
  x p = crop_xmin self ∨ x p = crop_xmax self
  ∨ y p = crop_ymin self ∨ y p = crop_ymax self →
  skip_x self p = false ∧ skip_y self p = false
  ∧ (i ∈ idx ↔ enough_events Event self (cropped events p) = true).
Proof.
  intros Hs Hi Hp Hroi _.
  destruct (proj2 (skip_false_iff self p) Hroi) as [Hx Hy].
  split; [done|]. split; [done|].
  rewrite (elem_of_select _ _ _ i Hs). unfold activeb.
  rewrite Hp, Hx, Hy. simpl. tauto.
Qed.

End SelectorProperties.

(** ** Results *)

Lemma bind_Ok {A B} (m : result A) (f : A → result B) (b : B) :
  m ≫= f = Ok b ↔ ∃ a, m = Ok a ∧ f a = Ok b.
Proof.
  destruct m as [a|e]; simpl; split.
  - intros Hf. by exists a.
  - by intros (a' & [= <-] & Hf).
  - done.
  - by intros (a' & ? & _).
Qed.

Lemma py_assert_Ok (c : bool) (u : unit) : py_assert c = Ok u ↔ c = true.
Proof. destruct c, u; simpl; split; done. Qed.

Lemma returns_Ok {A} (a : A) : returns (Ok a).
Proof. by exists a. Qed.

Lemma not_returns_Raise {A} (e : exn) : ¬ returns (@Raise A e).
Proof. by intros [a ?]. Qed.

(** Inversion of a chain of binds that returned. *)
Ltac inv_bind H :=
  repeat match type of H with
  | _ ≫= _ = Ok _ =>
      let a := fresh "a" in
      let Ha := fresh "Ha" in
      apply bind_Ok in H as (a & Ha & H)
  end.

(** The assertions that a returned call has passed. *)
Ltac inv_assert :=
  repeat match goal with
  | H : py_assert _ = Ok _ |- _ => apply py_assert_Ok in H
  end.

(** ** Scatter and gather *)

Section TensorProperties.
Context {A : Type} `{Scalar A}.
Implicit Types (d : list A) (offs idx : list nat).

Lemma scatter_length d offs vals :
  length (scatter d offs vals) = length d.
Proof.
  revert d vals. induction offs as [|o offs IH]; intros d [|a vals]; simpl;
    try done.
  by rewrite IH, length_insert.
Qed.

Lemma scatter_lookup_notin d offs vals (o : nat) :
  o ∉ offs → scatter d offs vals !! o = d !! o.
Proof.
  revert d vals. induction offs as [|o' offs IH]; intros d [|a vals] Hn;
    simpl; try done.
  apply not_elem_of_cons in Hn as [Hne Hn].
  rewrite IH by done. by rewrite list_lookup_insert_ne.
Qed.

(** The value that stays at an offset that is written is the one of its
    last occurrence among the offsets. *)
Lemma scatter_lookup_last d offs vals (o : nat) :
  length offs = length vals → (o < length d)%nat → o ∈ offs →
  ∃ j a, offs !! j = Some o ∧ vals !! j = Some a
         ∧ (∀ j', (j < j')%nat → offs !! j' ≠ Some o)
         ∧ scatter d offs vals !! o = Some a.
Proof.
  revert d vals. induction offs as [|o' offs IH]; intros d [|a vals] Hl Hd Ho;
    simpl in *; try done.
  - by apply elem_of_nil in Ho.
  - destruct (decide (o ∈ offs)) as [Hin|Hnin].
    + destruct (IH (<[o':=a]> d) vals) as (j & b & Hj & Hb & Hlast & Hs);
        [lia|by rewrite length_insert|done|].
      exists (S j), b. repeat split; try done.
      intros [|j'] Hlt; [lia|]. simpl. apply Hlast. lia.
    + apply elem_of_cons in Ho as [->|Ho]; [|done].
      exists 0%nat, a. repeat split; try done.
      * intros [|j'] Hlt; [lia|]. simpl. intros Hj'.
        apply Hnin. by eapply list_elem_of_lookup_2.
      * rewrite scatter_lookup_notin by done.
        by rewrite list_lookup_insert_eq.
Qed.

Lemma row_offsets_Ok n r idx offs :
  row_offsets n r idx = Ok offs ↔
  Forall (λ i, (i < n)%nat) idx ∧ offs = map (λ i, (r * n + i)%nat) idx.
Proof.
  revert offs. induction idx as [|i idx IH]; intros offs; simpl.
  - split; [intros [= <-]; by split|]. by intros [_ ->].
  - destruct (Nat.ltb_spec i n) as [Hlt|Hge].
    + rewrite bind_Ok. split.
      * intros (offs' & (Hall & ->)%IH & [= <-]). split; [by constructor|done].
      * intros [Hall ->]. apply Forall_cons in Hall as [_ Hall].
        eexists. split; [apply IH; by split|done].
    + split; [done|]. intros [Hall _].
      apply Forall_cons in Hall as [Hi _]. lia.
Qed.

Lemma gather_Ok d offs vs :
  gather d offs = Ok vs ↔ Forall2 (λ o a, d !! o = Some a) offs vs.
Proof.
  revert vs. induction offs as [|o offs IH]; intros vs; simpl.
  - split; [intros [= <-]; constructor|]. by intros ->%Forall2_nil_inv_l.
  - destruct (d !! o) as [a|] eqn:Ho.
    + rewrite bind_Ok. split.
      * intros (vs' & Hvs%IH & [= <-]). by constructor.
      * intros (a' & vs' & Ha & Hvs & ->)%Forall2_cons_inv_l.
        exists vs'. split; [by apply IH|]. congruence.
    + split; [done|].
      intros (a' & vs' & Ha & _)%Forall2_cons_inv_l. congruence.
Qed.

Lemma broadcast_to_length (k : nat) (v v' : list A) :
  broadcast_to k v = Ok v' → length v' = k.
Proof.
  unfold broadcast_to. destruct (Nat.eqb_spec (length v) k) as [Hl|Hl].
  - by intros [= <-].
  - destruct v as [|a [|? ?]]; try done. intros [= <-].
    by rewrite length_replicate.
Qed.

(** Every entry of a broadcast value is an entry of the value. *)
Lemma broadcast_to_lookup (k : nat) (v v' : list A) (j : nat) (a : A) :
  broadcast_to k v = Ok v' → v' !! j = Some a → a ∈ v.
Proof.
  unfold broadcast_to. destruct (Nat.eqb_spec (length v) k) as [Hl|Hl].
  - intros [= <-] Hj. by eapply list_elem_of_lookup_2.
  - destruct v as [|b [|? ?]]; try done. intros [= <-] Hj.
    apply lookup_replicate in Hj as [-> _]. by left.
Qed.

Lemma zeros_lookup (sh : list nat) (o : nat) :
  (o < numel sh)%nat → data (zeros (A:=A) sh) !! o = Some s_zero.
Proof. intros Ho. simpl. by apply lookup_replicate_2. Qed.

Lemma zeros_length (sh : list nat) : length (data (zeros (A:=A) sh)) = numel sh.
Proof. simpl. by rewrite length_replicate. Qed.

(** What [t[r, idx] += v] leaves in the tensor. *)
Lemma iadd_row_Ok (t t' : Tensor A) (n r : nat) idx (v : list A) :
  iadd_row t n r idx v = Ok t' →
  shape t' = shape t
  ∧ length (data t') = length (data t)
  ∧ Forall (λ i, (i < n)%nat) idx
  ∧ (∀ o, o ∉ map (λ i, (r * n + i)%nat) idx → data t' !! o = data t !! o)
  ∧ (∀ i, i ∈ idx →
       ∃ j c b v', broadcast_to (length idx) v = Ok v'
         ∧ idx !! j = Some i
         ∧ (∀ j', (j < j')%nat → idx !! j' ≠ Some i)
         ∧ data t !! (r * n + i)%nat = Some c
         ∧ v' !! j = Some b
         ∧ data t' !! (r * n + i)%nat = Some (s_add c b)).
Proof.
  unfold iadd_row. intros Hi. inv_bind Hi. injection Hi as <-. simpl.
  rename a into offs, a0 into cur, a1 into v'.
  apply row_offsets_Ok in Ha as [Hall ->].
  apply gather_Ok in Ha0.
  pose proof (broadcast_to_length _ _ _ Ha1) as Hv'.
  pose proof (Forall2_length _ _ _ Ha0) as Hcur. rewrite length_map in Hcur.
  split; [done|]. split; [apply scatter_length|]. split; [done|].
  split; [intros o Ho; by apply scatter_lookup_notin|].
  intros i Hin.
  assert (length (map (λ i, (r * n + i)%nat) idx)
          = length (zip_with s_add cur v')) as Hlen.
  { rewrite length_map, length_zip_with. lia. }
  assert ((r * n + i)%nat ∈ map (λ i, (r * n + i)%nat) idx) as Hoff.
  { apply list_elem_of_fmap. by exists i. }
  assert (∃ c, data t !! (r * n + i)%nat = Some c) as [c Hc].
  { apply list_elem_of_lookup in Hoff as [j Hj].
    destruct (Forall2_lookup_l _ _ _ _ _ Ha0 Hj) as (c & _ & Hc). by exists c. }
  destruct (scatter_lookup_last (data t) _ _ _ Hlen
              (lookup_lt_Some _ _ _ Hc) Hoff)
    as (j & a & Hj & Ha & Hlast & Hs).
  apply list_lookup_fmap_Some in Hj as (i' & Hi' & Hj).
  assert (i' = i) as -> by lia.
  apply lookup_zip_with_Some in Ha as (c' & b & -> & Hc' & Hb).
  assert (c' = c) as ->.
  { destruct (Forall2_lookup_r _ _ _ _ _ Ha0 Hc') as (o & Ho & Hco).
    rewrite list_lookup_fmap, Hj in Ho. simpl in Ho.
    injection Ho as <-. congruence. }
  exists j, c, b, v'. repeat split; try done.
  intros j' Hlt Hj'. apply (Hlast j' Hlt).
  by rewrite list_lookup_fmap, Hj'.
Qed.

End TensorProperties.

(** ** The store *)

Section StoreProperties.
Context {A : Type}.
Implicit Types (s : Store A) (p : Param A).

Lemma read_write s l p : read (write s l p) l = p.
Proof. unfold read, write; simpl. by rewrite lookup_total_insert_eq. Qed.

Lemma read_alloc s p : read (snd (alloc s p)) (fst (alloc s p)) = p.
Proof. unfold read, alloc; simpl. by rewrite lookup_total_insert_eq. Qed.

End StoreProperties.

(** ** The parameter vector codec *)

Section CodecProperties.
Context {A : Type} `{Scalar A} `{Trig A}.
Variable SobelTorch : Tensor A → result (Tensor A).

Lemma zeros_zero_off (n c : nat) (idx : list nat) :
  zero_off n c idx (data (zeros [c; n])).
Proof.
  intros ch i Hch Hi _. apply zeros_lookup. simpl. nia.
Qed.

Lemma row_offset_notin (n r ch i : nat) (idx : list nat) :
  Forall (λ i, (i < n)%nat) idx → (i < n)%nat → i ∉ idx →
  (ch * n + i)%nat ∉ map (λ i, (r * n + i)%nat) idx.
Proof.
  intros Hall Hi Hn (i' & Heq & Hin)%list_elem_of_fmap.
  rewrite Forall_forall in Hall. specialize (Hall i' Hin). simpl in Hall.
  assert (i = i') as ->; [|done].
  destruct (Nat.lt_trichotomy ch r) as [Hlt|[->|Hlt]]; [|lia|].
  - assert ((ch + 1) * n ≤ r * n)%nat by (apply Nat.mul_le_mono_r; lia). lia.
  - assert ((r + 1) * n ≤ ch * n)%nat by (apply Nat.mul_le_mono_r; lia). lia.
Qed.

Lemma iadd_row_zero_off (t t' : Tensor A) (n c r : nat) (idx : list nat)
    (v : list A) :
  iadd_row t n r idx v = Ok t' →
  zero_off n c idx (data t) → zero_off n c idx (data t').
Proof.
  intros (_ & _ & Hall & Hout & _)%iadd_row_Ok Hz ch i Hch Hi Hn.
  rewrite Hout by (by apply row_offset_notin). by apply Hz.
Qed.

Lemma reshape_Ok (t t' : Tensor A) (sh : list nat) :
  reshape t sh = Ok t' → shape t' = sh ∧ data t' = data t.
Proof.
  unfold reshape. destruct (numel sh =? length (data t))%nat; [|done].
  by intros [= <-].
Qed.

(** The velocity or angle branch of [_get_patch_flow], once it returned. *)
Lemma flow_branch_Ok (self : Solver) (parameters : list A) (t : Tensor A) :
  is_poisson_model self = false →
  _get_patch_flow SobelTorch self parameters = Ok t →
  ∃ rows v1 t1 t2,
    reshape_T (n_parameter_dim self) parameters = Ok rows
    ∧ (if is_angle_model self
       then ∃ a, row_at rows 0 = Ok a ∧ v1 = (map s_sin a, map s_cos a)
       else ∃ v_x v_y, row_at rows 0 = Ok v_x ∧ row_at rows 1 = Ok v_y
                       ∧ v1 = (v_x, v_y))
    ∧ iadd_row (zeros [2%nat; n_patch self]) (n_patch self) 0
        (estimate_indices self) v1.1 = Ok t1
    ∧ iadd_row t1 (n_patch self) 1 (estimate_indices self) v1.2 = Ok t2
    ∧ data t = data t2.
Proof.
  intros Hp Hf. unfold _get_patch_flow in Hf. rewrite Hp in Hf.
  inv_bind Hf. apply reshape_Ok in Hf as [_ Hd].
  exists a, a0, a1, a2. repeat split; try done.
  destruct (is_angle_model self).
  - inv_bind Ha0. injection Ha0 as <-. by eexists.
  - inv_bind Ha0. injection Ha0 as <-. by eexists _, _.
Qed.

(** C4, as the code has it.  The velocity (or angle) flow of
    [_get_patch_flow], the translation of [_get_patch_translation] and the
    intensity of [_get_patch_poisson] are exactly [0.0] at every patch
    index outside the active patch set, in every channel.  (With the
    intensity model, [_get_patch_flow] returns the Sobel gradient of the
    scattered intensity, which this statement leaves out.) *)
Theorem decoded_fields_zero_off_active (self : Solver) (parameters : list A) :
  (is_poisson_model self = false →
   ∀ t, _get_patch_flow SobelTorch self parameters = Ok t →
        zero_off_active self 2 t)
  ∧ (∀ t, _get_patch_translation self parameters = Ok t →
          zero_off_active self 2 t)
  ∧ (∀ t, _get_patch_poisson self parameters = Ok t →
          zero_off_active self 1 t).
Proof.
  unfold zero_off_active. repeat split.
  - intros Hp t Hf.
    destruct (flow_branch_Ok _ _ _ Hp Hf) as (rows & v1 & t1 & t2 & _ & _ & H1 & H2 & ->).
    eapply iadd_row_zero_off; [exact H2|].
    eapply iadd_row_zero_off; [exact H1|]. apply zeros_zero_off.
  - intros t Hf. unfold _get_patch_translation in Hf. inv_bind Hf.
    apply reshape_Ok in Hf as [_ ->].
    eapply iadd_row_zero_off; [exact Ha2|].
    eapply iadd_row_zero_off; [exact Ha1|]. apply zeros_zero_off.
  - intros t Hf. unfold _get_patch_poisson in Hf. inv_bind Hf.
    apply reshape_Ok in Hf as [_ ->].
    eapply iadd_row_zero_off; [exact Ha3|]. apply zeros_zero_off.
Qed.

End CodecProperties.

Section AngleModel.
Context {A : Type} `{Scalar A} `{Trig A}.
Variable SobelTorch : Tensor A → result (Tensor A).

Lemma broadcast_to_map (f : A → A) (k : nat) (a v' : list A) :
  broadcast_to k (map f a) = Ok v' →
  ∃ a', broadcast_to k a = Ok a' ∧ v' = map f a'.
Proof.
  unfold broadcast_to. rewrite length_map.
  destruct (length a =? k)%nat.
  - intros [= <-]. by eexists.
  - destruct a as [|b [|? ?]]; try done. simpl. intros [= <-].
    eexists. split; [done|]. by rewrite fmap_replicate.
Qed.

(** With the angle model, an active patch receives the sine of an angle of
    the parameter vector in channel 0 and the cosine of the same angle in
    channel 1, each added to the zero that was there. *)
Lemma angle_flow_entries (self : Solver) (parameters : list A)
    (t : Tensor A) (i : nat) :
  is_poisson_model self = false → is_angle_model self = true →
  _get_patch_flow SobelTorch self parameters = Ok t →
  i ∈ estimate_indices self →
  ∃ θ, θ ∈ block_entries (n_parameter_dim self) 0 parameters
    ∧ data t !! i = Some (s_add s_zero (s_sin θ))
    ∧ data t !! (n_patch self + i)%nat = Some (s_add s_zero (s_cos θ)).
Proof.
  intros Hp Hang Hf Hi.
  destruct (flow_branch_Ok _ _ _ _ Hp Hf)
    as (rows & v1 & t1 & t2 & Hrows & Hv & H1 & H2 & ->).
  rewrite Hang in Hv. destruct Hv as (a & Ha & ->). simpl in H1, H2.
  set (n := n_patch self) in *. set (idx := estimate_indices self) in *.
  apply iadd_row_Ok in H1 as (_ & _ & Hall & Hout1 & Hin1).
  apply iadd_row_Ok in H2 as (_ & _ & _ & Hout2 & Hin2).
  destruct (Hin1 i Hi) as (j & c & b & v0 & Hb0 & Hj & Hlast & Hc & Hb & Ht1).
  destruct (Hin2 i Hi)
    as (j2 & c2 & b2 & v1 & Hb1 & Hj2 & Hlast2 & Hc2 & Hb2 & Ht2).
  assert (i < n)%nat as Hlt.
  { rewrite Forall_forall in Hall. by apply Hall. }
  assert (j2 = j) as ->.
  { destruct (Nat.lt_trichotomy j j2) as [Hlt'|[->|Hlt']]; [|done|].
    - by destruct (Hlast j2 Hlt').
    - by destruct (Hlast2 j Hlt'). }
  apply broadcast_to_map in Hb0 as (a0 & Ha0 & ->).
  apply broadcast_to_map in Hb1 as (a1 & Ha1 & ->).
  assert (a1 = a0) as -> by congruence.
  apply list_lookup_fmap_Some in Hb as (θ & -> & Hθ).
  apply list_lookup_fmap_Some in Hb2 as (θ' & -> & Hθ').
  assert (θ' = θ) as -> by congruence.
  rewrite zeros_lookup in Hc by (simpl; lia). injection Hc as <-.
  rewrite Hout1 in Hc2.
  2:{ intros (i' & Heq & Hin)%list_elem_of_fmap.
      rewrite Forall_forall in Hall. specialize (Hall i' Hin).
      simpl in Hall. lia. }
  rewrite zeros_lookup in Hc2 by (simpl; lia). injection Hc2 as <-.
  exists θ. split.
  - unfold reshape_T in Hrows.
    destruct (n_parameter_dim self =? 0)%nat eqn:Hd; [done|].
    destruct (_ mod _ =? 0)%nat; [|done]. injection Hrows as <-.
    unfold row_at in Ha.
    destruct (n_parameter_dim self) as [|d]; [done|].
    simpl in Ha. injection Ha as <-.
    by eapply broadcast_to_lookup.
  - split.
    + rewrite Hout2; [done|].
      intros (i' & Heq & Hin)%list_elem_of_fmap. lia.
    + replace (n + i)%nat with (1 * n + i)%nat by lia. done.
Qed.

End AngleModel.


(** ** The dimension contract of the decode paths *)

Section DimensionContract.
Context {A : Type} `{Scalar A} `{Trig A}.
Variable SobelTorch : Tensor A → result (Tensor A).

(** A decode path that returns has passed its assertion, whatever the
    parameter vector. *)
Lemma decode_returns_valid (self : Solver) (parameters : list A) :
  (returns (_get_patch_flow SobelTorch self parameters) →
   flow_dim_valid self = true)
  ∧ (returns (_get_patch_translation self parameters) →
     translation_dim_valid self = true)
  ∧ (returns (_get_patch_poisson self parameters) →
     poisson_dim_valid self = true).
Proof.
  unfold flow_dim_valid, translation_dim_valid, poisson_dim_valid.
  repeat split; intros [t Ht].
  - unfold _get_patch_flow in Ht.
    destruct (is_poisson_model self), (is_angle_model self); simpl;
      inv_bind Ht; try inv_bind Ha0; by inv_assert.
  - unfold _get_patch_translation in Ht.
    destruct (is_poisson_model self), (is_angle_model self); simpl;
      inv_bind Ht; inv_bind Ha0; by inv_assert.
  - unfold _get_patch_poisson in Ht. inv_bind Ht.
    inv_assert. by rewrite Ha0, Ha1.
Qed.

(** C7.  For a parameter vector made of whole blocks of [n_parameter_dim]
    entries, a decode path called with a dimension outside its valid set
    raises [AssertionError]: the flow decode unless the dimension is 1 or 3
    with the intensity or the angle model and 2 or 4 with plain velocity;
    the translation decode unless it is 3 with the intensity or the angle
    model and 4 with plain velocity; the intensity decode unless the
    intensity model is on and the dimension is 1 or 3.  No decode path
    returns a field outside its valid set. *)
Theorem decode_asserts_dimension (self : Solver) (parameters : list A) :
  returns (reshape_T (n_parameter_dim self) parameters) →
  (flow_dim_valid self = false →
   _get_patch_flow SobelTorch self parameters = Raise AssertionError)
  ∧ (translation_dim_valid self = false →
     _get_patch_translation self parameters = Raise AssertionError)
  ∧ (poisson_dim_valid self = false →
     _get_patch_poisson self parameters = Raise AssertionError)
  ∧ (returns (_get_patch_flow SobelTorch self parameters) →
     flow_dim_valid self = true)
  ∧ (returns (_get_patch_translation self parameters) →
     translation_dim_valid self = true)
  ∧ (returns (_get_patch_poisson self parameters) →
     poisson_dim_valid self = true).
Proof.
  intros [rows Hrows].
  split; [|split; [|split; [|apply decode_returns_valid]]].
  - unfold flow_dim_valid, _get_patch_flow. rewrite Hrows. simpl.
    destruct (is_poisson_model self), (is_angle_model self); simpl;
      by intros ->.
  - unfold translation_dim_valid, _get_patch_translation. rewrite Hrows.
    simpl.
    destruct (is_poisson_model self), (is_angle_model self); simpl;
      by intros ->.
  - unfold poisson_dim_valid, _get_patch_poisson. rewrite Hrows. simpl.
    destruct (is_poisson_model self); simpl; [|done]. by intros ->.
Qed.

End DimensionContract.

(** ** The forward prediction model *)

Section ElementwiseProperties.
Context {A : Type}.
Implicit Types (f : A → A → A) (a b r : list (list A)).

Lemma collect_Ok {X} (l : list (result X)) (xs : list X) :
  collect l = Ok xs ↔ l = map Ok xs.
Proof.
  revert xs. induction l as [|m l IH]; intros xs; simpl.
  - split; [by intros [= <-]|]. by destruct xs.
  - destruct m as [x|e]; simpl.
    + destruct (collect l) as [r|e] eqn:Hl; simpl.
      * split.
        -- intros [= <-]. simpl. f_equal. by apply IH.
        -- destruct xs as [|x' xs]; [done|]. simpl. intros [= -> Hxs].
           f_equal. f_equal. apply IH in Hxs. congruence.
      * split; [done|]. destruct xs as [|x' xs]; [done|]. simpl.
        intros [= -> Hxs]. apply IH in Hxs. congruence.
    + split; [done|]. by destruct xs.
Qed.

Lemma collect_lookup {X} (l : list (result X)) (xs : list X) (i : nat)
    (m : result X) :
  collect l = Ok xs → l !! i = Some m → ∃ x, m = Ok x ∧ xs !! i = Some x.
Proof.
  intros ->%collect_Ok. change (map Ok xs) with (Ok <$> xs).
  rewrite list_lookup_fmap. destruct (xs !! i) as [x|]; simpl; [|done].
  intros [= <-]. by exists x.
Qed.

Lemma vec_map2_lookup f (u v w : list A) (j : nat) (x y : A) :
  vec_map2 f u v = Ok w → u !! j = Some x → v !! j = Some y →
  w !! j = Some (f x y).
Proof.
  unfold vec_map2. destruct (length u =? length v)%nat.
  - intros [= <-] Hx Hy. by rewrite lookup_zip_with, Hx, Hy.
  - destruct u as [|u0 [|u1 u]].
    + by destruct v as [|v0 [|v1 v]].
    + intros [= <-] Hx Hy. destruct j as [|j]; [|done].
      destruct v as [|v0 v]; simpl in *; congruence.
    + destruct v as [|v0 [|v1 v]]; try done.
      intros [= <-] Hx Hy. destruct j as [|j]; [|done].
      simpl in *. congruence.
Qed.

Lemma vec_imap2_lookup f (u v w : list A) (j : nat) (x y : A) :
  vec_imap2 f u v = Ok w → u !! j = Some x → v !! j = Some y →
  w !! j = Some (f x y).
Proof.
  unfold vec_imap2. destruct (length u =? length v)%nat.
  - intros [= <-] Hx Hy. by rewrite lookup_zip_with, Hx, Hy.
  - destruct v as [|v0 [|v1 v]]; try done.
    intros [= <-] Hx Hy. destruct j as [|j]; [|done].
    destruct u as [|u0 u]; simpl in *; congruence.
Qed.

Lemma entry_Some (m : list (list A)) (i j : nat) (x : A) :
  entry m i j = Some x ↔ ∃ row, m !! i = Some row ∧ row !! j = Some x.
Proof.
  unfold entry, Matrix. destruct (m !! i) as [row|]; simpl.
  - split; [intros Hx; by exists row|]. by intros (row' & [= <-] & Hx).
  - split; [done|]. by intros (row' & ? & _).
Qed.

(** An entry that both operands have is combined with its partner: the
    broadcasting repeats an operand only where it has no entry. *)
Lemma mat_map2_entry f a b r (i j : nat) (x y : A) :
  mat_map2 f a b = Ok r →
  entry a i j = Some x → entry b i j = Some y →
  entry r i j = Some (f x y).
Proof.
  intros Hr (ra & Ha & Hx)%entry_Some (rb & Hb & Hy)%entry_Some.
  apply entry_Some.
  assert (∀ l : list (result (list A)),
            collect l = Ok r → l !! i = Some (vec_map2 f ra rb) →
            ∃ row, r !! i = Some row ∧ row !! j = Some (f x y)) as Hrow.
  { intros l Hl Hi.
    destruct (collect_lookup l r i _ Hl Hi) as (w & Hw & Hri).
    exists w. split; [done|]. by eapply vec_map2_lookup. }
  unfold mat_map2 in Hr. destruct (length a =? length b)%nat.
  - apply (Hrow _ Hr). by rewrite lookup_zip_with, Ha, Hb.
  - destruct a as [|u0 [|u1 a]].
    + by destruct b as [|v0 [|v1 b]].
    + destruct i as [|i]; [|done]. injection Ha as <-.
      apply (Hrow _ Hr). change (map ?g ?l) with (g <$> l).
      by rewrite list_lookup_fmap, Hb.
    + destruct b as [|v0 [|v1 b]]; try done.
      destruct i as [|i]; [|done]. injection Hb as <-.
      apply (Hrow _ Hr). change (map ?g ?l) with (g <$> l).
      by rewrite list_lookup_fmap, Ha.
Qed.

Lemma mat_imap2_entry f a b r (i j : nat) (x y : A) :
  mat_imap2 f a b = Ok r →
  entry a i j = Some x → entry b i j = Some y →
  entry r i j = Some (f x y).
Proof.
  intros Hr (ra & Ha & Hx)%entry_Some (rb & Hb & Hy)%entry_Some.
  apply entry_Some.
  assert (∀ l : list (result (list A)),
            collect l = Ok r → l !! i = Some (vec_imap2 f ra rb) →
            ∃ row, r !! i = Some row ∧ row !! j = Some (f x y)) as Hrow.
  { intros l Hl Hi.
    destruct (collect_lookup l r i _ Hl Hi) as (w & Hw & Hri).
    exists w. split; [done|]. by eapply vec_imap2_lookup. }
  unfold mat_imap2 in Hr. destruct (length a =? length b)%nat.
  - apply (Hrow _ Hr). by rewrite lookup_zip_with, Ha, Hb.
  - destruct b as [|v0 [|v1 b]]; try done.
    destruct i as [|i]; [|done]. injection Hb as <-.
    apply (Hrow _ Hr). change (map ?g ?l) with (g <$> l).
    by rewrite list_lookup_fmap, Ha.
Qed.

(** Operands of one shape: no broadcasting, and the result has that
    shape. *)
Lemma collect_zip_same (g : list A → list A → result (list A)) f a b :
  (∀ u v, length u = length v → g u v = Ok (zip_with f u v)) →
  row_lengths a = row_lengths b →
  collect (zip_with g a b) = Ok (zip_with (zip_with f) a b)
  ∧ row_lengths (zip_with (zip_with f) a b) = row_lengths a.
Proof.
  intros Hg. revert b. induction a as [|u a IH]; intros [|v b]; try done.
  unfold row_lengths. simpl. intros [= Huv Hab].
  destruct (IH b Hab) as [Hc Hl]. rewrite (Hg u v Huv). simpl.
  rewrite Hc. simpl. split; [done|]. f_equal.
  - rewrite length_zip_with. lia.
  - exact Hl.
Qed.

Lemma mat_map2_same_shape f a b r :
  row_lengths a = row_lengths b → mat_map2 f a b = Ok r →
  row_lengths r = row_lengths a.
Proof.
  intros Hab. unfold mat_map2.
  assert (length a = length b) as ->.
  { pose proof (f_equal length Hab) as Hl. unfold row_lengths in Hl.
    by rewrite !length_map in Hl. }
  rewrite Nat.eqb_refl.
  destruct (collect_zip_same (vec_map2 f) f a b) as [-> Hl]; [|done|].
  - intros u v Huv. unfold vec_map2. by rewrite Huv, Nat.eqb_refl.
  - by intros [= <-].
Qed.

Lemma mat_imap2_same_shape f a b r :
  row_lengths a = row_lengths b → mat_imap2 f a b = Ok r →
  row_lengths r = row_lengths a.
Proof.
  intros Hab. unfold mat_imap2.
  assert (length a = length b) as ->.
  { pose proof (f_equal length Hab) as Hl. unfold row_lengths in Hl.
    by rewrite !length_map in Hl. }
  rewrite Nat.eqb_refl.
  destruct (collect_zip_same (vec_imap2 f) f a b) as [-> Hl]; [|done|].
  - intros u v Huv. unfold vec_imap2. by rewrite Huv, Nat.eqb_refl.
  - by intros [= <-].
Qed.

Lemma mat_map_entry (g : A → A) (m : list (list A)) (i j : nat) :
  entry (mat_map g m) i j = g <$> entry m i j.
Proof.
  unfold entry, mat_map, Matrix. change (map ?h ?l) with (h <$> l).
  rewrite list_lookup_fmap. destruct (m !! i) as [row|]; simpl; [|done].
  change (map ?h ?l) with (h <$> l). by rewrite list_lookup_fmap.
Qed.

Lemma row_lengths_mat_map (g : A → A) (m : list (list A)) :
  row_lengths (mat_map g m) = row_lengths m.
Proof.
  unfold row_lengths, mat_map. rewrite map_map. apply map_ext.
  intros row. apply length_map.
Qed.

(** A slice with bounds that are not negative: the elements from [lo] on,
    [hi - lo] of them at most. *)
Lemma py_slice_lookup {X} (lo hi : Z) (l : list X) (i : nat) :
  0 ≤ lo → 0 ≤ hi →
  py_slice lo hi l !! i
  = if (i <? Z.to_nat hi - Z.to_nat lo)%nat then l !! (Z.to_nat lo + i)%nat
    else None.
Proof.
  intros Hlo Hhi. unfold py_slice, slice_bound.
  destruct (Z.ltb_spec lo 0) as [?|_]; [lia|].
  destruct (Z.ltb_spec hi 0) as [?|_]; [lia|].
  destruct (Nat.ltb_spec i (Z.to_nat hi - Z.to_nat lo)) as [Hi|Hi].
  - destruct (decide (Z.to_nat lo + i < length l)%nat) as [Hl|Hl].
    + rewrite lookup_take_lt by lia. rewrite lookup_drop. f_equal. lia.
    + rewrite (lookup_ge_None_2 l) by lia.
      apply lookup_ge_None_2. rewrite length_take, length_drop. lia.
  - apply lookup_ge_None_2. rewrite length_take, length_drop. lia.
Qed.

Lemma crop2_entry (x_min x_max y_min y_max : Z) (m : list (list A)) (i j : nat) :
  0 ≤ x_min → 0 ≤ x_max → 0 ≤ y_min → 0 ≤ y_max →
  entry (crop2 x_min x_max y_min y_max m) i j
  = if (i <? Z.to_nat x_max - Z.to_nat x_min)%nat
       && (j <? Z.to_nat y_max - Z.to_nat y_min)%nat
    then entry m (Z.to_nat x_min + i) (Z.to_nat y_min + j)
    else None.
Proof.
  intros Hx0 Hx1 Hy0 Hy1. unfold entry, crop2, Matrix.
  change (map ?h ?l) with (h <$> l). rewrite list_lookup_fmap.
  rewrite py_slice_lookup by done.
  destruct (i <? _)%nat; simpl; [|done].
  destruct (m !! (Z.to_nat x_min + i)%nat) as [row|]; simpl.
  - rewrite py_slice_lookup by done. by destruct (j <? _)%nat.
  - by destruct (j <? _)%nat.
Qed.

End ElementwiseProperties.

Section PredictionProperties.
Context {A : Type} `{Scalar A} `{Trig A} `{LinalgNorm A}.
Variable SobelTorch : Tensor A → result (Tensor A).
Variable interpolate_dense_flow_from_patch_tensor :
  Tensor A → result (Dense A).
Variable _gradient_x_torch : Matrix A.
Variable _gradient_y_torch : Matrix A.
Variable warp_image_forward : Matrix A → Dense A → result (Matrix A).

Abbreviation predict :=
  (_make_prediction_torch SobelTorch interpolate_dense_flow_from_patch_tensor
     _gradient_x_torch _gradient_y_torch warp_image_forward).
Abbreviation unnormalized :=
  (unnormalized_increment SobelTorch interpolate_dense_flow_from_patch_tensor
     _gradient_x_torch _gradient_y_torch warp_image_forward).
Abbreviation gradients :=
  (roi_gradients interpolate_dense_flow_from_patch_tensor
     _gradient_x_torch _gradient_y_torch warp_image_forward).
Abbreviation dense_flow :=
  (_extrapolate_dense_flow_from_estimates SobelTorch
     interpolate_dense_flow_from_patch_tensor).
Abbreviation dense_translation :=
  (_extrapolate_dense_translation_from_estimates
     interpolate_dense_flow_from_patch_tensor).

Lemma bind_assoc {X Y Z} (m : result X) (f : X → result Y) (g : Y → result Z) :
  (m ≫= f) ≫= g = m ≫= (λ a, f a ≫= g).
Proof. by destruct m. Qed.

Lemma bind_ext {X Y} (m : result X) (f g : X → result Y) :
  (∀ a, f a = g a) → m ≫= f = m ≫= g.
Proof. intros Hfg. destruct m; simpl; [apply Hfg|done]. Qed.

(** The method is the unnormalized increment followed by the division. *)
Lemma prediction_normalizes (self : Solver) (parameters : list A) (roi : Roi)
    (weights : option (Matrix A)) :
  predict self parameters roi weights
  = u ← unnormalized self parameters roi weights; Ok (normalize_stage u).
Proof.
  unfold _make_prediction_torch, unnormalized_increment, roi_gradients,
    flow_dot_gradient, weight_stage, polarity_stage, normalize_stage.
  rewrite ?bind_assoc. apply bind_ext; intros dense.
  rewrite ?bind_assoc. apply bind_ext; intros g.
  rewrite ?bind_assoc. apply bind_ext; intros f0.
  rewrite ?bind_assoc. apply bind_ext; intros a.
  rewrite ?bind_assoc. apply bind_ext; intros f1.
  rewrite ?bind_assoc. apply bind_ext; intros b.
  rewrite ?bind_assoc. apply bind_ext; intros p.
  by destruct weights.
Qed.

(** The division, entry by entry. *)
Lemma normalize_stage_entry (u : Matrix A) (i j : nat) :
  entry (normalize_stage u) i j
  = (λ v, s_div v (s_add (linalg_norm u) s_eps)) <$> entry u i j.
Proof. unfold normalize_stage. apply mat_map_entry. Qed.

Lemma row_at_map_crop (crop : Matrix A → Matrix A) (flow : Dense A)
    (c : nat) (f : Matrix A) :
  row_at (map crop flow) c = Ok f → ∃ f', flow !! c = Some f' ∧ f = crop f'.
Proof.
  unfold row_at. intros Hf.
  match type of Hf with
  | match ?t with _ => _ end = _ => destruct t as [v|] eqn:Hv
  end; [|done].
  injection Hf as <-. change (map crop flow) with (crop <$> flow) in Hv.
  apply list_lookup_fmap_Some in Hv as (f' & -> & Hf').
  by exists f'.
Qed.

(** C8.  A prediction that returns, pixel by pixel and in the order of the
    stages.  The gradients are the crops of the two gradient images, both
    passed through [warp_image_forward] with the cropped translation field
    exactly when [optimize_warp] is set.  A crop with bounds that are not
    negative holds at [(i, j)] the entry [(x_min + i, y_min + j)] of what
    it crops, for [i < x_max - x_min] and [j < y_max - y_min], and nothing
    else.  At a pixel, the increment before the division is
    [f0 * gx + f1 * gy] of the two cropped flow channels and the two
    gradients at that pixel, then its absolute value exactly when
    [no_polarity] is set, then the product with the weight of the pixel
    exactly when weights are given.  Operands of one shape give an
    increment of that shape.  The division by the norm of that increment
    plus epsilon comes last, at every entry. *)
Theorem prediction_entries_in_stage_order (self : Solver)
    (parameters : list A) (roi : Roi) (weights : option (Matrix A))
    (p : Matrix A) :
  let crop := crop2 (xmin roi) (xmax roi) (ymin roi) (ymax roi) in
  let x0 := Z.to_nat (xmin roi) in
  let y0 := Z.to_nat (ymin roi) in
  let inside (i j : nat) :=
    (i <? Z.to_nat (xmax roi) - x0)%nat && (j <? Z.to_nat (ymax roi) - y0)%nat
  in
  predict self parameters roi weights = Ok p →
  ∃ (flow : Dense A) (f0 f1 gx gy u : Matrix A),
    dense_flow self parameters = Ok flow
    ∧ flow !! 0%nat = Some f0 ∧ flow !! 1%nat = Some f1
    ∧ (if optimize_warp self
       then ∃ translation,
              dense_translation self parameters = Ok translation
              ∧ warp_image_forward (crop _gradient_x_torch)
                  (map crop translation) = Ok gx
              ∧ warp_image_forward (crop _gradient_y_torch)
                  (map crop translation) = Ok gy
       else gx = crop _gradient_x_torch ∧ gy = crop _gradient_y_torch)
    ∧ (0 ≤ xmin roi → 0 ≤ xmax roi → 0 ≤ ymin roi → 0 ≤ ymax roi →
       ∀ (m : Matrix A) i j,
         entry (crop m) i j
         = if inside i j then entry m (x0 + i)%nat (y0 + j)%nat else None)
    ∧ (∀ i j a b c d,
         entry (crop f0) i j = Some a →
         entry gx i j = Some b →
         entry (crop f1) i j = Some c →
         entry gy i j = Some d →
         let dot := s_add (s_mul a b) (s_mul c d) in
         let signed := if no_polarity self then s_abs dot else dot in
         match weights with
         | None => entry u i j = Some signed
         | Some w =>
             ∀ e, entry w i j = Some e → entry u i j = Some (s_mul signed e)
         end)
    ∧ (row_lengths (crop f0) = row_lengths gx →
       row_lengths (crop f1) = row_lengths gx →
       row_lengths gy = row_lengths gx →
       (∀ w, weights = Some w → row_lengths w = row_lengths gx) →
       row_lengths u = row_lengths gx)
    ∧ row_lengths p = row_lengths u
    ∧ (∀ i j,
         entry p i j
         = (λ v, s_div v (s_add (linalg_norm u) s_eps)) <$> entry u i j).
Proof.
  intros crop x0 y0 inside Hp.
  rewrite prediction_normalizes in Hp.
  apply bind_Ok in Hp as (u & Hu & [= <-]).
  unfold unnormalized_increment in Hu.
  apply bind_Ok in Hu as (flow & Hflow & Hu).
  apply bind_Ok in Hu as ([gx gy] & Hg & Hu).
  apply bind_Ok in Hu as (dot & Hdot & Hu).
  unfold flow_dot_gradient in Hdot. simpl in Hdot.
  apply bind_Ok in Hdot as (c0 & Hc0 & Hdot).
  apply bind_Ok in Hdot as (pa & Hpa & Hdot).
  apply bind_Ok in Hdot as (c1 & Hc1 & Hdot).
  apply bind_Ok in Hdot as (pb & Hpb & Hdot).
  apply row_at_map_crop in Hc0 as (f0 & Hf0 & ->).
  apply row_at_map_crop in Hc1 as (f1 & Hf1 & ->).
  fold crop in Hpa, Hpb.
  exists flow, f0, f1, gx, gy, u.
  split; [done|]. split; [done|]. split; [done|]. split.
  { unfold roi_gradients in Hg. fold crop in Hg.
    destruct (optimize_warp self).
    - apply bind_Ok in Hg as (tr & Htr & Hg).
      apply bind_Ok in Hg as (gx' & Hgx & Hg).
      apply bind_Ok in Hg as (gy' & Hgy & [= <- <-]).
      by exists tr.
    - by injection Hg as <- <-. }
  split.
  { intros Hx0 Hx1 Hy0 Hy1 m i j. by apply crop2_entry. }
  split.
  { intros i j a b c d Ha Hb Hc Hd dot0 signed.
    assert (entry dot i j = Some dot0) as Hd0.
    { eapply mat_map2_entry; [exact Hdot| |].
      - eapply mat_map2_entry; [exact Hpa|exact Ha|exact Hb].
      - eapply mat_map2_entry; [exact Hpb|exact Hc|exact Hd]. }
    assert (entry (polarity_stage (no_polarity self) dot) i j = Some signed)
      as Hs.
    { unfold polarity_stage, signed. destruct (no_polarity self); [|done].
      by rewrite mat_map_entry, Hd0. }
    unfold weight_stage in Hu. destruct weights as [w|].
    - intros e He. by eapply mat_imap2_entry.
    - by injection Hu as <-. }
  split.
  { intros Hs0 Hs1 Hsy Hw.
    assert (row_lengths dot = row_lengths gx) as Hsd.
    { apply (mat_map2_same_shape s_add pa pb dot) in Hdot.
      - rewrite Hdot. apply (mat_map2_same_shape _ _ _ _ Hs0) in Hpa.
        by rewrite Hpa.
      - apply (mat_map2_same_shape _ _ _ _ Hs0) in Hpa.
        rewrite <- Hsy in Hs1.
        apply (mat_map2_same_shape _ _ _ _ Hs1) in Hpb.
        by rewrite Hpa, Hpb, Hs0, Hs1, Hsy. }
    assert (row_lengths (polarity_stage (no_polarity self) dot)
            = row_lengths gx) as Hsp.
    { unfold polarity_stage. destruct (no_polarity self); [|done].
      by rewrite row_lengths_mat_map. }
    unfold weight_stage in Hu. destruct weights as [w|].
    - apply mat_imap2_same_shape in Hu; [by rewrite Hu|].
      rewrite Hsp. symmetry. by apply Hw.
    - by injection Hu as <-. }
  split.
  { unfold normalize_stage. apply row_lengths_mat_map. }
  intros i j. apply normalize_stage_entry.
Qed.

End PredictionProperties.

(** ** The normalization on binary64 *)

Lemma float_zero_cases (v : float) :
  float_zero v → v = PrimFloat.zero ∨ v = PrimFloat.neg_zero.
Proof.
  unfold float_zero, PrimFloat.is_zero. rewrite FloatAxioms.eqb_spec.
  intros Hz. rewrite <- (SF2Prim_Prim2SF v).
  destruct (Prim2SF v) as [[|]| [|] | |[|] m e]; simpl in Hz;
    try discriminate; try (by right); by left.
Qed.

(** A zero divided by a zero plus [0.0001] is a zero, and finite. *)
Lemma zero_over_eps (v n : float) :
  float_zero v → float_zero n →
  float_zero (v / (n + 0x1.a36e2eb1c432dp-14))%float
  ∧ PrimFloat.is_finite (v / (n + 0x1.a36e2eb1c432dp-14))%float = true.
Proof.
  intros Hv Hn.
  by destruct (float_zero_cases v Hv) as [-> | ->],
              (float_zero_cases n Hn) as [-> | ->].
Qed.

Section NormalizationProperties.
Context `{Trig float} `{LinalgNorm float}.
Variable SobelTorch : Tensor float → result (Tensor float).
Variable interpolate_dense_flow_from_patch_tensor :
  Tensor float → result (Dense float).
Variable _gradient_x_torch : Matrix float.
Variable _gradient_y_torch : Matrix float.
Variable warp_image_forward :
  Matrix float → Dense float → result (Matrix float).

(** C5.  On binary64, with [torch.linalg.norm] as torch computes it: the
    prediction returned has the shape of the unnormalized increment (after
    the polarity and weight stages), and each of its entries is the entry
    of that increment divided by the norm of that same increment plus
    [0.0001].  When every entry of the increment is a zero, and the norm of
    such an increment is a zero, as it is in torch, every entry of the
    prediction is a zero and finite: neither NaN nor an infinity. *)
Theorem prediction_normalized_by_norm_plus_eps (self : Solver)
    (parameters : list float) (roi : Roi) (weights : option (Matrix float))
    (u : Matrix float) :
  unnormalized_increment SobelTorch interpolate_dense_flow_from_patch_tensor
    _gradient_x_torch _gradient_y_torch warp_image_forward
    self parameters roi weights = Ok u →
  ∃ p,
    _make_prediction_torch SobelTorch interpolate_dense_flow_from_patch_tensor
      _gradient_x_torch _gradient_y_torch warp_image_forward
      self parameters roi weights = Ok p
    ∧ row_lengths p = row_lengths u
    ∧ (∀ i j,
         entry p i j
         = (λ v, v / (linalg_norm u + 0x1.a36e2eb1c432dp-14))%float
           <$> entry u i j)
    ∧ (all_entries float_zero u → float_zero (linalg_norm u) →
       all_entries (λ v, float_zero v ∧ PrimFloat.is_finite v = true) p).
Proof.
  intros Hu. exists (normalize_stage u). split.
  { by rewrite prediction_normalizes, Hu. }
  split; [apply row_lengths_mat_map|].
  split; [intros i j; exact (normalize_stage_entry u i j)|].
  intros Hz Hn. unfold normalize_stage, all_entries, mat_map in *.
  apply Forall_fmap. eapply Forall_impl; [exact Hz|]. intros r Hr. simpl.
  apply Forall_fmap. eapply Forall_impl; [exact Hr|]. intros v Hv. simpl.
  by apply zero_over_eps.
Qed.

End NormalizationProperties.

(** ** The optimisation loop *)

(** A NaN is below nothing. *)
Lemma nan_ltb (l m : float) :
  PrimFloat.is_nan l = true → (l <? m)%float = false.
Proof.
  unfold PrimFloat.is_nan.
  rewrite FloatAxioms.eqb_spec, FloatAxioms.ltb_spec. unfold SFeqb, SFltb.
  destruct (Prim2SF l) as [[|]| [|] | |[|] ml el]; simpl; try done.
  all: by rewrite Z.compare_refl, ?Pos.compare_refl.
Qed.

Section LoopProperties.
Context {A : Type} `{Scalar A} `{Trig A} `{LinalgNorm A}.
Variable Event : Type.
Variable crop_event : list Event → Z → Z → Z → Z → list Event.
Variable SobelTorch : Tensor A → result (Tensor A).
Variable interpolate_dense_flow_from_patch_tensor :
  Tensor A → result (Dense A).
Variable interpolate_dense_poisson_from_patch_tensor :
  Tensor A → result (Dense A).
Variable _gradient_x_torch : Matrix A.
Variable _gradient_y_torch : Matrix A.
Variable warp_image_forward : Matrix A → Dense A → result (Matrix A).
Variable _initialize_velocity : list A.
Variable _make_measured_increment :
  Solver → list Event → Roi → result (Matrix A * option (Matrix A)).
Variable cost_func : Matrix A → Matrix A → option (Matrix A) → result float.
Variable loss_backward :
  Solver → list A → Matrix A → Roi → option (Matrix A) → result (list A).
Variable Optimizer : Type.
Variable optimizer_new : float → nat → float → Optimizer.
Variable optimizer_step : Optimizer → list A → list A → Optimizer * list A.
Variable scheduler_step : Optimizer → Optimizer.
Variable debug_enabled : bool.
Variable visualize_flow : Dense A → result unit.
Variable visualize_poisson : Dense A → result unit.
Variable visualize_diff : Matrix A → Matrix A → result unit.

Abbreviation objective :=
  (_objective_scipy SobelTorch interpolate_dense_flow_from_patch_tensor
     _gradient_x_torch _gradient_y_torch warp_image_forward cost_func).
Abbreviation visualize :=
  (visualize_evolution SobelTorch interpolate_dense_flow_from_patch_tensor
     interpolate_dense_poisson_from_patch_tensor
     _gradient_x_torch _gradient_y_torch warp_image_forward
     debug_enabled visualize_flow visualize_poisson visualize_diff).
Abbreviation loop :=
  (optimize SobelTorch interpolate_dense_flow_from_patch_tensor
     interpolate_dense_poisson_from_patch_tensor
     _gradient_x_torch _gradient_y_torch warp_image_forward
     cost_func loss_backward Optimizer optimizer_step scheduler_step
     debug_enabled visualize_flow visualize_poisson visualize_diff).
Abbreviation run_estimate :=
  (estimate Event crop_event SobelTorch
     interpolate_dense_flow_from_patch_tensor
     interpolate_dense_poisson_from_patch_tensor
     _gradient_x_torch _gradient_y_torch warp_image_forward
     _initialize_velocity _make_measured_increment
     cost_func loss_backward Optimizer optimizer_new optimizer_step
     scheduler_step debug_enabled visualize_flow visualize_poisson
     visualize_diff).
Abbreviation reconstruct :=
  (_extrapolate_dense_flow_from_estimates SobelTorch
     interpolate_dense_flow_from_patch_tensor).

Abbreviation prepared := (prepared _initialize_velocity).
Abbreviation initial_parameters := (initial_parameters _initialize_velocity).
Abbreviation initial_state :=
  (initial_state _initialize_velocity Optimizer optimizer_new).
Abbreviation full_iteration :=
  (full_iteration SobelTorch interpolate_dense_flow_from_patch_tensor
     interpolate_dense_poisson_from_patch_tensor
     _gradient_x_torch _gradient_y_torch warp_image_forward
     cost_func loss_backward Optimizer optimizer_step scheduler_step
     debug_enabled visualize_flow visualize_poisson visualize_diff).
Abbreviation iterate :=
  (iterate SobelTorch interpolate_dense_flow_from_patch_tensor
     interpolate_dense_poisson_from_patch_tensor
     _gradient_x_torch _gradient_y_torch warp_image_forward
     cost_func loss_backward Optimizer optimizer_step scheduler_step
     debug_enabled visualize_flow visualize_poisson visualize_diff).
Abbreviation backward_raises :=
  (backward_raises SobelTorch interpolate_dense_flow_from_patch_tensor
     interpolate_dense_poisson_from_patch_tensor
     _gradient_x_torch _gradient_y_torch warp_image_forward
     cost_func loss_backward Optimizer
     debug_enabled visualize_flow visualize_poisson visualize_diff).
Abbreviation current := (current Optimizer).

Section Iterates.
Local Arguments _objective_scipy : simpl never.
Local Arguments visualize_evolution : simpl never.
Variable self : Solver.
Variable measured_increment : Matrix A.
Variable roi : Roi.
Variable weights : option (Matrix A).

Abbreviation full_iteration :=
  (full_iteration self measured_increment roi weights).
Abbreviation iterate := (iterate self measured_increment roi weights).
Abbreviation backward_raises :=
  (backward_raises self measured_increment roi weights).

Lemma iterate_succ (k : nat) (xo xo' : list A * Optimizer) :
  iterate k xo = Some xo' → iterate (S k) xo = full_iteration xo'.
Proof.
  revert xo. induction k as [|k IH]; intros xo; simpl.
  - intros [= ->]. by destruct (full_iteration xo').
  - destruct (full_iteration xo) as [xo1|]; simpl; [|done]. apply IH.
Qed.

Lemma iterate_le (k j : nat) (xo xo' : list A * Optimizer) :
  iterate k xo = Some xo' → (j ≤ k)%nat → is_Some (iterate j xo).
Proof.
  revert j xo. induction k as [|k IH]; intros j xo Hk Hj.
  - assert (j = 0%nat) as -> by lia. by eexists.
  - destruct j as [|j]; [by eexists|]. simpl in *.
    destruct (full_iteration xo) as [xo1|]; simpl in *; [|done].
    apply (IH j xo1 Hk). lia.
Qed.

(** The state in which the loop ends when the backward pass of its first
    iteration raises. *)
Lemma loop_first_break (x0 : loc) (s : nat) (range : list nat)
    (st : LoopState Optimizer) (l : float) (e : exn) :
  objective self (current x0 st).1 measured_increment roi weights = Ok l →
  visualize self (current x0 st).1 measured_increment weights roi = Ok tt →
  loss_backward self (current x0 st).1 measured_increment roi weights
  = Raise e →
  loop self x0 measured_increment roi weights (s :: range) st
  = Ok (mkLoopState Optimizer
          (write (store Optimizer st) x0 (mkParam (current x0 st).1 None))
          (optimizer Optimizer st)
          (if (l <? min_loss Optimizer st)%float
           then x0 else best_x Optimizer st)
          (if (l <? min_loss Optimizer st)%float
           then s else best_it Optimizer st)
          (if (l <? min_loss Optimizer st)%float
           then l else min_loss Optimizer st)
          (logged Optimizer st ++ [e])).
Proof.
  unfold current. simpl. intros Ho Hv Hb. rewrite !read_write. simpl.
  rewrite Ho, Hv, Hb. simpl. by destruct (l <? _)%float.
Qed.

(** The loop from iteration [s] on, when the backward pass raises [k]
    iterations later: it ends there without raising, the parameter tensor
    holds the iterate of that iteration, and [best_x] names the parameter
    tensor. *)
Lemma loop_break (x0 : loc) (n s k : nat) (st : LoopState Optimizer)
    (xo : list A * Optimizer) (e : exn) :
  (k < n)%nat →
  iterate k (current x0 st) = Some xo →
  backward_raises xo e →
  ∃ st', loop self x0 measured_increment roi weights (seq s n) st = Ok st'
    ∧ current x0 st' = xo
    ∧ logged Optimizer st' = logged Optimizer st ++ [e]
    ∧ (best_x Optimizer st = x0 → best_x Optimizer st' = x0)
    ∧ (best_it Optimizer st' = best_it Optimizer st
       ∨ (s ≤ best_it Optimizer st' ≤ s + k)%nat).
Proof.
  revert s k st. induction n as [|n IH]; intros s k st Hk Hit Hb; [lia|].
  simpl. unfold current in Hit. rewrite !read_write. simpl.
  destruct k as [|k].
  - injection Hit as <-. destruct Hb as (l & Ho & Hv & Hbk).
    simpl in Ho, Hv, Hbk. rewrite Ho, Hv, Hbk. simpl.
    eexists. split; [done|]. unfold current. simpl. rewrite read_write.
    simpl. repeat split; try done.
    + by destruct (l <? _)%float.
    + destruct (l <? _)%float; simpl; [right; lia|by left].
  - simpl in Hit. unfold full_iteration in Hit. simpl in Hit.
    destruct (objective _ _ _ _ _) as [l|]; simpl in *; [|done].
    destruct (visualize _ _ _ _ _) as [u|]; simpl in *; [|done].
    destruct (loss_backward _ _ _ _ _) as [g|]; simpl in *; [|done].
    rewrite !read_write. simpl.
    edestruct (IH (S s) k) as (st' & Hl & Hc & Hlog & Hbx & Hbi);
      [lia| |exact Hb|].
    2:{ exists st'. split; [exact Hl|]. split; [done|]. simpl in *.
        split; [done|]. split.
        - intros Hx. apply Hbx. by destruct (l <? _)%float.
        - destruct Hbi as [Hbi|Hbi]; [|right; lia].
          rewrite Hbi. destruct (l <? _)%float; simpl; [right; lia|by left]. }
    unfold current. simpl. rewrite read_write. simpl. exact Hit.
Qed.

(** The loop from iteration [s] on, when all of its [n] iterations run in
    full. *)
Lemma loop_exhausted (x0 : loc) (n s : nat) (st : LoopState Optimizer)
    (xo : list A * Optimizer) :
  iterate n (current x0 st) = Some xo →
  ∃ st', loop self x0 measured_increment roi weights (seq s n) st = Ok st'
    ∧ current x0 st' = xo
    ∧ logged Optimizer st' = logged Optimizer st
    ∧ (best_x Optimizer st = x0 → best_x Optimizer st' = x0).
Proof.
  revert s st. induction n as [|n IH]; intros s st Hit.
  - simpl in *. injection Hit as <-. by exists st.
  - simpl. simpl in Hit. unfold full_iteration, current in Hit.
    simpl in Hit. rewrite !read_write. simpl.
    destruct (objective _ _ _ _ _) as [l|]; simpl in *; [|done].
    destruct (visualize _ _ _ _ _) as [u|]; simpl in *; [|done].
    destruct (loss_backward _ _ _ _ _) as [g|]; simpl in *; [|done].
    rewrite !read_write. simpl.
    edestruct (IH (S s)) as (st' & Hl & Hc & Hlog & Hbx).
    2:{ exists st'. split; [exact Hl|]. split; [done|]. simpl in *.
        split; [done|]. intros Hx. apply Hbx. by destruct (l <? _)%float. }
    unfold current. simpl. rewrite read_write. simpl. exact Hit.
Qed.

End Iterates.

(** The objective runs the reconstruction first: where it returned, the
    reconstruction returns. *)
Lemma objective_Ok_reconstruct (self : Solver) (params : list A)
    (m : Matrix A) (roi : Roi) (w : option (Matrix A)) (l : float) :
  objective self params m roi w = Ok l → returns (reconstruct self params).
Proof.
  unfold _objective_scipy, _make_prediction_torch. intros Ho.
  apply bind_Ok in Ho as (p & Hp & _).
  apply bind_Ok in Hp as (d & Hd & _). by exists d.
Qed.

Lemma current_initial_state (self : Solver) (idx : list nat) :
  current 0%nat (initial_state self idx)
  = (initial_parameters idx, optimizer_new lr (n_iter self) lr_decay).
Proof.
  unfold current, initial_state, read, alloc. simpl.
  by rewrite lookup_total_insert_eq.
Qed.

Lemma bind_Ok_l {X Y} (a : X) (f : X → result Y) : Ok a ≫= f = f a.
Proof. done. Qed.

(** [estimate], statement by statement. *)
Lemma estimate_unfold (self : Solver) (events : list Event) :
  run_estimate self events
  = idx ← select_indices Event crop_event self events;
    x0 ← np_concatenate (replicate (length idx) _initialize_velocity);
    m ← _make_measured_increment (prepared self idx) events
          (roi_of (prepared self idx));
    st ← loop (prepared self idx) 0%nat m.1 (roi_of (prepared self idx)) m.2
           (seq 0 (n_iter self))
           (mkLoopState Optimizer (alloc empty_store (mkParam x0 None)).2
              (optimizer_new lr (n_iter self) lr_decay)
              0%nat 0%nat infinity []);
    d ← reconstruct (prepared self idx)
          (value (read
             (clone_detach (store Optimizer st) (best_x Optimizer st)).2
             (clone_detach (store Optimizer st) (best_x Optimizer st)).1));
    Ok (d, incr_iter_cnt (prepared self idx)).
Proof. reflexivity. Qed.

(** [estimate], from the loop on: the reconstruction reads a copy of the
    tensor that [best_x] names. *)
Lemma estimate_from_loop (self : Solver) (events : list Event)
    (idx : list nat) (m : Matrix A * option (Matrix A))
    (st : LoopState Optimizer) :
  select_indices Event crop_event self events = Ok idx →
  idx ≠ [] →
  _make_measured_increment (prepared self idx) events
    (roi_of (prepared self idx)) = Ok m →
  loop (prepared self idx) 0%nat m.1 (roi_of (prepared self idx)) m.2
    (seq 0 (n_iter self)) (initial_state self idx) = Ok st →
  run_estimate self events
  = d ← reconstruct (prepared self idx)
          (value (read (store Optimizer st) (best_x Optimizer st)));
    Ok (d, incr_iter_cnt (prepared self idx)).
Proof.
  intros Hsel Hne Hm Hloop. rewrite estimate_unfold.
  rewrite Hsel, bind_Ok_l.
  assert (np_concatenate (replicate (length idx) _initialize_velocity)
          = Ok (initial_parameters idx)) as ->.
  { by destruct idx. }
  rewrite bind_Ok_l, Hm, bind_Ok_l.
  unfold initial_state in Hloop. rewrite Hloop, bind_Ok_l.
  unfold clone_detach, alloc, read. simpl.
  by rewrite lookup_total_insert_eq.
Qed.

(** The loop never rebinds [best_x] to another object than the parameter
    tensor: whatever the losses were, [estimate] reconstructs from what the
    parameter tensor holds when the loop ends.  Here, after a backward pass
    that raised at iteration [k]. *)
Lemma estimate_after_break (self : Solver) (events : list Event)
    (idx : list nat) (m : Matrix A * option (Matrix A)) (k : nat)
    (xo : list A * Optimizer) (e : exn) :
  let self' := prepared self idx in
  select_indices Event crop_event self events = Ok idx →
  idx ≠ [] →
  _make_measured_increment self' events (roi_of self') = Ok m →
  (k < n_iter self)%nat →
  iterate self' m.1 (roi_of self') m.2 k
    (initial_parameters idx, optimizer_new lr (n_iter self) lr_decay)
  = Some xo →
  backward_raises self' m.1 (roi_of self') m.2 xo e →
  ∃ st, loop self' 0%nat m.1 (roi_of self') m.2 (seq 0 (n_iter self))
          (initial_state self idx) = Ok st
    ∧ logged Optimizer st = [e]
    ∧ (best_it Optimizer st ≤ k)%nat
    ∧ run_estimate self events
      = d ← reconstruct self' xo.1; Ok (d, incr_iter_cnt self').
Proof.
  intros self' Hsel Hne Hm Hk Hit Hb.
  rewrite <- current_initial_state in Hit.
  destruct (loop_break self' m.1 (roi_of self') m.2 0%nat _ 0%nat k _ _ e
              Hk Hit Hb) as (st & Hloop & Hc & Hlog & Hbx & Hbi).
  exists st. split; [done|]. split; [done|]. split.
  { simpl in Hbi. lia. }
  rewrite (estimate_from_loop self events idx m st Hsel Hne Hm Hloop).
  rewrite Hbx by done. unfold current in Hc. by rewrite <- Hc.
Qed.

(** And after [n_iter] full iterations: the vector that is reconstructed
    is the one the last optimizer step left, the loss of which the loop
    never computed. *)
Lemma estimate_after_all_iterations (self : Solver) (events : list Event)
    (idx : list nat) (m : Matrix A * option (Matrix A))
    (xo : list A * Optimizer) :
  let self' := prepared self idx in
  select_indices Event crop_event self events = Ok idx →
  idx ≠ [] →
  _make_measured_increment self' events (roi_of self') = Ok m →
  iterate self' m.1 (roi_of self') m.2 (n_iter self)
    (initial_parameters idx, optimizer_new lr (n_iter self) lr_decay)
  = Some xo →
  run_estimate self events
  = d ← reconstruct self' xo.1; Ok (d, incr_iter_cnt self').
Proof.
  intros self' Hsel Hne Hm Hit.
  rewrite <- current_initial_state in Hit.
  destruct (loop_exhausted self' m.1 (roi_of self') m.2 0%nat _ 0%nat _ _ Hit)
    as (st & Hloop & Hc & Hlog & Hbx).
  rewrite (estimate_from_loop self events idx m st Hsel Hne Hm Hloop).
  rewrite Hbx by done. unfold current in Hc. by rewrite <- Hc.
Qed.

(** C9.  When the backward pass raises in the first iteration, whatever
    the loss was, [estimate] returns, and the dense flow it returns is the
    reconstruction of the initial parameter vector, which no optimizer step
    has touched: the loop ends with the exception logged and the parameter
    tensor, which [best_x] names, unchanged.  When the loss is a NaN, the
    comparison with the minimum fails and the record stays at its initial
    value, iteration 0 and +infinity. *)
Theorem backward_failure_at_first_iteration (self : Solver)
    (events : list Event) (idx : list nat)
    (m : Matrix A * option (Matrix A)) (l : float) (e : exn) :
  let self' := prepared self idx in
  select_indices Event crop_event self events = Ok idx →
  idx ≠ [] →
  _make_measured_increment self' events (roi_of self') = Ok m →
  (0 < n_iter self)%nat →
  objective self' (initial_parameters idx) m.1 (roi_of self') m.2 = Ok l →
  visualize self' (initial_parameters idx) m.1 m.2 (roi_of self') = Ok tt →
  loss_backward self' (initial_parameters idx) m.1 (roi_of self') m.2
  = Raise e →
  ∃ d st,
    estimate Event crop_event SobelTorch
      interpolate_dense_flow_from_patch_tensor
      interpolate_dense_poisson_from_patch_tensor
      _gradient_x_torch _gradient_y_torch warp_image_forward
      _initialize_velocity _make_measured_increment
      cost_func loss_backward Optimizer optimizer_new optimizer_step
      scheduler_step debug_enabled visualize_flow visualize_poisson
      visualize_diff self events
    = Ok (d, incr_iter_cnt self')
    ∧ reconstruct self' (initial_parameters idx) = Ok d
    ∧ loop self' 0%nat m.1 (roi_of self') m.2 (seq 0 (n_iter self))
        (initial_state self idx) = Ok st
    ∧ logged Optimizer st = [e]
    ∧ value (read (store Optimizer st) (best_x Optimizer st))
      = initial_parameters idx
    ∧ (PrimFloat.is_nan l = true →
       best_it Optimizer st = 0%nat ∧ min_loss Optimizer st = infinity).
Proof.
  intros self' Hsel Hne Hm Hn Ho Hv Hb.
  destruct (objective_Ok_reconstruct _ _ _ _ _ _ Ho) as [d Hd].
  destruct (n_iter self) as [|n] eqn:Hiters; [lia|].
  pose proof (loop_first_break self' m.1 (roi_of self') m.2 0%nat 0%nat
                (seq 1 n) (initial_state self idx) l e) as Hloop.
  rewrite current_initial_state in Hloop. cbn [fst] in Hloop.
  specialize (Hloop Ho Hv Hb).
  match type of Hloop with _ = Ok ?s => set (st := s) in Hloop end.
  assert (best_x Optimizer st = 0%nat) as Hbx.
  { subst st. simpl. by destruct (l <? _)%float. }
  assert (value (read (store Optimizer st) 0%nat) = initial_parameters idx)
    as Hval.
  { subst st. simpl. by rewrite read_write. }
  exists d, st. split.
  { rewrite (estimate_from_loop self events idx m st Hsel Hne Hm);
      [|by rewrite Hiters].
    rewrite Hbx, Hval. fold self'. by rewrite Hd. }
  split; [done|]. split; [exact Hloop|]. split; [done|].
  split; [by rewrite Hbx|].
  intros Hnan. subst st. simpl. by rewrite (nan_ltb l _ Hnan).
Qed.

(** The loop at a failure of the backward pass.  When the backward pass
    raises at iteration [k], the loop ends there: the exception is logged
    and does not leave [estimate], no optimizer step follows, the best-loss
    record is of an iteration up to and including [k] (the loss of
    iteration [k] is compared before its backward pass), and [estimate]
    returns the reconstruction of the iterate of an iteration [j ≤ k]. *)
Theorem backward_failure_ends_loop (self : Solver) (events : list Event)
    (idx : list nat) (m : Matrix A * option (Matrix A)) (k : nat)
    (xo : list A * Optimizer) (e : exn) :
  let self' := prepared self idx in
  let start :=
    (initial_parameters idx, optimizer_new lr (n_iter self) lr_decay) in
  select_indices Event crop_event self events = Ok idx →
  idx ≠ [] →
  _make_measured_increment self' events (roi_of self') = Ok m →
  (k < n_iter self)%nat →
  iterate self' m.1 (roi_of self') m.2 k start = Some xo →
  backward_raises self' m.1 (roi_of self') m.2 xo e →
  ∃ st d j xj,
    optimize SobelTorch interpolate_dense_flow_from_patch_tensor
      interpolate_dense_poisson_from_patch_tensor
      _gradient_x_torch _gradient_y_torch warp_image_forward
      cost_func loss_backward Optimizer optimizer_step scheduler_step
      debug_enabled visualize_flow visualize_poisson visualize_diff
      self' 0%nat m.1 (roi_of self') m.2 (seq 0 (n_iter self))
      (initial_state self idx) = Ok st
    ∧ logged Optimizer st = [e]
    ∧ (best_it Optimizer st ≤ k)%nat
    ∧ (j ≤ k)%nat
    ∧ iterate self' m.1 (roi_of self') m.2 j start = Some xj
    ∧ reconstruct self' xj.1 = Ok d
    ∧ run_estimate self events = Ok (d, incr_iter_cnt self').
Proof.
  intros self' start Hsel Hne Hm Hk Hit Hb.
  destruct (estimate_after_break self events idx m k xo e
              Hsel Hne Hm Hk Hit Hb) as (st & Hloop & Hlog & Hbi & Hest).
  destruct Hb as (l & Ho & Hb).
  destruct (objective_Ok_reconstruct _ _ _ _ _ _ Ho) as [d Hd].
  exists st, d, k, xo. repeat split; try done.
  rewrite Hest. fold self'. by rewrite Hd.
Qed.

End LoopProperties.

(** * The properties at the instances *)

(** Two binary64 values that a comparison tells apart are different. *)
Lemma float_ltb_neq (a b : float) : (a <? b)%float = true → a ≠ b.
Proof.
  intros Hab ->. revert Hab. rewrite FloatAxioms.ltb_spec.
  unfold SFltb.
  destruct (Prim2SF b) as [[|]| [|] | |[|] m e]; simpl; try done.
  all: by rewrite Z.compare_refl, ?Pos.compare_refl.
Qed.

(** C1, where the code departs from it.  One iteration towards the target
    0.4 from [(0, 0)]: the loss of iterate 0 is recorded as the best, the
    optimizer step moves the parameter tensor to [(400, 0)], whose loss is
    greater, and [best_x], a second name of that tensor, moves with it:
    [estimate] reconstructs from [(400, 0)], not from the recorded best
    [(0, 0)]. *)
Theorem best_iterate_is_overwritten :
  ex_iterate target_04 never 1 0 = Some ([0; 0]%float, sgd_new lr 1 lr_decay)
  ∧ (∃ o, ex_iterate target_04 never 1 1 = Some ([400; 0]%float, o))
  ∧ (∃ l0 l1 st,
       ex_objective target_04 1 [0; 0]%float = Ok l0
       ∧ ex_objective target_04 1 [400; 0]%float = Ok l1
       ∧ (l0 <? l1)%float = true
       ∧ ex_optimize target_04 never 1 = Ok st
       ∧ best_it Sgd st = 0%nat
       ∧ min_loss Sgd st = l0
       ∧ value (read (store Sgd st) (best_x Sgd st)) = [400; 0]%float)
  ∧ ex_reconstruct 1 [0; 0]%float = Ok [[[0%float]]; [[0%float]]]
  ∧ ex_reconstruct 1 [400; 0]%float = Ok [[[400%float]]; [[0%float]]]
  ∧ fst <$> ex_estimate target_04 never 1
    = Ok [[[400%float]]; [[0%float]]].
Proof.
  split; [by vm_compute|]. split; [eexists; by vm_compute|].
  split; [|by vm_compute].
  eexists _, _, _. split; [by vm_compute|]. split; [by vm_compute|].
  split; [by vm_compute|]. split; [by vm_compute|]. by vm_compute.
Qed.

(** The record can be of the failing iteration itself: towards the target
    0.9 the first step lands on [(900, 0)], whose loss is the smallest so
    far; the backward pass of iteration 1 raises; the record is of
    iteration 1 and [estimate] reconstructs from the iterate of iteration
    1, which no iteration strictly before 1 had. *)
Lemma backward_failure_keeps_iterate_k :
  ex_iterate target_09 above_100 5 1
  = Some ([900; 0]%float, mkSgd lr 1 5 lr_decay)
  ∧ ex_backward_raises target_09 above_100 5
      ([900; 0]%float, mkSgd lr 1 5 lr_decay) BackwardError
  ∧ (∃ st, ex_optimize target_09 above_100 5 = Ok st
           ∧ best_it Sgd st = 1%nat)
  ∧ fst <$> ex_estimate target_09 above_100 5
    = Ok [[[900%float]]; [[0%float]]]
  ∧ (∀ j xj, (j < 1)%nat → ex_iterate target_09 above_100 5 j = Some xj →
       ex_reconstruct 5 xj.1 ≠ Ok [[[900%float]]; [[0%float]]]).
Proof.
  split; [by vm_compute|]. split.
  { eexists. by vm_compute. }
  split; [eexists; by vm_compute|]. split; [by vm_compute|].
  intros j xj Hj Hit. assert (j = 0%nat) as -> by lia.
  vm_compute in Hit. injection Hit as <-. vm_compute.
  intros Heq. apply (float_ltb_neq 0 900); [done|]. congruence.
Qed.

(** C2, where the code departs from it.  Towards the target 0.4, with a
    backward pass that raises once the velocity exceeds 100: iteration 0
    records the loss 0.16 of [(0, 0)] and steps to [(400, 0)]; iteration 1
    computes the greater loss 0.36, which is not recorded, and its backward
    pass raises.  The loop ends without raising, with the exception logged
    and the record of iteration 0; but [best_x] is a second name of the
    parameter tensor, and [estimate] returns the reconstruction of
    [(400, 0)], the iterate of the failing iteration 1, not that of
    [(0, 0)], the best iterate recorded strictly before it. *)
Theorem backward_failure_returns_failing_iterate :
  ex_iterate target_04 above_100 5 0
  = Some ([0; 0]%float, sgd_new lr 5 lr_decay)
  ∧ ex_iterate target_04 above_100 5 1
    = Some ([400; 0]%float, mkSgd lr 1 5 lr_decay)
  ∧ ex_backward_raises target_04 above_100 5
      ([400; 0]%float, mkSgd lr 1 5 lr_decay) BackwardError
  ∧ (∃ l0 l1 st,
       ex_objective target_04 5 [0; 0]%float = Ok l0
       ∧ ex_objective target_04 5 [400; 0]%float = Ok l1
       ∧ (l0 <? l1)%float = true
       ∧ ex_optimize target_04 above_100 5 = Ok st
       ∧ logged Sgd st = [BackwardError]
       ∧ best_it Sgd st = 0%nat
       ∧ min_loss Sgd st = l0
       ∧ value (read (store Sgd st) (best_x Sgd st)) = [400; 0]%float)
  ∧ ex_reconstruct 5 [0; 0]%float = Ok [[[0%float]]; [[0%float]]]
  ∧ ex_reconstruct 5 [400; 0]%float = Ok [[[400%float]]; [[0%float]]]
  ∧ fst <$> ex_estimate target_04 above_100 5
    = Ok [[[400%float]]; [[0%float]]].
Proof.
  split; [by vm_compute|]. split; [by vm_compute|]. split.
  { eexists. by vm_compute. }
  split; [|by vm_compute].
  eexists _, _, _. split; [by vm_compute|]. split; [by vm_compute|].
  split; [by vm_compute|]. split; [by vm_compute|].
  split; [by vm_compute|]. split; [by vm_compute|]. by vm_compute.
Qed.

(** The backward pass raising at iteration 1 of 5, towards the target 0.9. *)
Lemma backward_failure_ends_loop_witness :
  ∃ d self', ex_estimate target_09 above_100 5 = Ok (d, self').
Proof.
  destruct (backward_failure_ends_loop unit ex_crop_event ex_sobel
              ex_interpolate ex_interpolate ex_gx ex_gy ex_warp ex_init
              (ex_measured target_09) ex_cost (ex_backward above_100)
              Sgd sgd_new sgd_step step_lr false ex_sink_d ex_sink_d
              ex_sink_m (ex_solver 5) [] [0%nat] ([[target_09]], None) 1%nat
              ([900; 0]%float, mkSgd lr 1 5 lr_decay) BackwardError)
    as (st & d & j & xj & _ & _ & _ & _ & _ & _ & Hest).
  - reflexivity.
  - discriminate.
  - reflexivity.
  - simpl. lia.
  - vm_compute. reflexivity.
  - eexists. vm_compute. repeat split; reflexivity.
  - eexists d, _. exact Hest.
Defined.

(** The backward pass raising at once, towards the target 0.4. *)
Lemma backward_failure_at_first_iteration_witness :
  ∃ d self', ex_estimate target_04 always 3 = Ok (d, self')
             ∧ ex_reconstruct 3 [0; 0]%float = Ok d.
Proof.
  destruct (backward_failure_at_first_iteration unit ex_crop_event ex_sobel
              ex_interpolate ex_interpolate ex_gx ex_gy ex_warp ex_init
              (ex_measured target_04) ex_cost (ex_backward always)
              Sgd sgd_new sgd_step step_lr false ex_sink_d ex_sink_d
              ex_sink_m (ex_solver 3) [] [0%nat] ([[target_04]], None)
              (0x1.47ae147ae147cp-3)%float BackwardError)
    as (d & st & Hest & Hd & _).
  - reflexivity.
  - discriminate.
  - reflexivity.
  - simpl. lia.
  - vm_compute. reflexivity.
  - vm_compute. reflexivity.
  - vm_compute. reflexivity.
  - eexists d, _. split; [exact Hest|exact Hd].
Defined.

(** The selection among the three patches: the first is taken, the second
    has 9 events and is not. *)
Lemma estimate_indices_iff_witness :
  ∃ idx, select_indices (Z * Z) crop_box sel_solver sel_events = Ok idx
         ∧ 0%nat ∈ idx ∧ 1%nat ∉ idx.
Proof.
  destruct (estimate_indices_iff (Z * Z) crop_box sel_solver sel_events)
    as (idx & Hsel & _ & _ & Hten).
  - simpl. lia.
  - exists idx. split; [exact Hsel|]. split.
    + apply (Hten eq_refl eq_refl 0%nat (mkPatch 0 2 0 4 0 4));
        [simpl; lia|reflexivity| |reflexivity].
      unfold center_in_roi. simpl. lia.
    + apply (Hten eq_refl eq_refl 1%nat (mkPatch 5 5 3 7 3 7));
        [simpl; lia|reflexivity|reflexivity].
Defined.

(** The first of the three patches, with its centre on [x = crop_xmin]. *)
Lemma roi_bound_is_inclusive_witness :
  skip_x sel_solver (mkPatch 0 2 0 4 0 4) = false
  ∧ skip_y sel_solver (mkPatch 0 2 0 4 0 4) = false
  ∧ (0%nat ∈ [0%nat]
     ↔ enough_events (Z * Z) sel_solver
         (cropped_of (Z * Z) crop_box sel_events (mkPatch 0 2 0 4 0 4))
       = true).
Proof.
  apply (roi_bound_is_inclusive (Z * Z) crop_box sel_solver sel_events
           [0%nat] 0%nat (mkPatch 0 2 0 4 0 4)).
  - reflexivity.
  - simpl. lia.
  - reflexivity.
  - unfold center_in_roi. simpl. lia.
  - left. reflexivity.
Defined.

(** C4 as stated fails with the intensity model: the flow of
    [_get_patch_flow] is the Sobel gradient of the scattered intensity, and
    next to an active patch it is not zero.  With the intensity 8 at the
    active patch 0, the x component at the inactive patch 1 is -2. *)
Lemma poisson_flow_nonzero_off_active :
  ∃ t, _get_patch_flow sobel3 (two_patches true 1) [8%float] = Ok t
       ∧ (1%nat ∉ estimate_indices (two_patches true 1))
       ∧ data t !! 1%nat = Some (-2)%float
       ∧ ¬ zero_off_active (two_patches true 1) 2 t.
Proof.
  eexists. split; [by vm_compute|].
  assert (1%nat ∉ estimate_indices (two_patches true 1)) as Hn.
  { simpl. by intros [=]%list_elem_of_singleton. }
  split; [exact Hn|]. split; [reflexivity|].
  intros Hz. specialize (Hz 0%nat 1%nat). simpl in Hz.
  assert (Some (-2)%float = Some 0%float) as Heq by (apply Hz; [lia|lia|exact Hn]).
  apply (float_ltb_neq (-2) 0); [done|]. congruence.
Qed.

(** The velocity [(3, 4)] at the active patch 0 of two. *)
Lemma decoded_fields_zero_off_active_witness :
  zero_off_active (two_patches false 2) 2
    (mkTensor [2%nat; 1%nat; 2%nat] [3; 0; 4; 0]%float).
Proof.
  apply (proj1 (decoded_fields_zero_off_active ex_sobel
                  (two_patches false 2) [3; 4]%float)).
  - reflexivity.
  - reflexivity.
Defined.

(** The prediction at the velocity [(0, 0)]: a zero, not a NaN. *)
Lemma prediction_normalized_by_norm_plus_eps_witness :
  ∃ p, _make_prediction_torch ex_sobel ex_interpolate ex_gx ex_gy ex_warp
         (prepared ex_init (ex_solver 1) [0%nat]) [0; 0]%float
         (mkRoi 0 1 0 1) None = Ok p
       ∧ all_entries (λ v, float_zero v ∧ PrimFloat.is_finite v = true) p.
Proof.
  destruct (prediction_normalized_by_norm_plus_eps ex_sobel ex_interpolate
              ex_gx ex_gy ex_warp (prepared ex_init (ex_solver 1) [0%nat])
              [0; 0]%float (mkRoi 0 1 0 1) None [[0%float]])
    as (p & Hp & _ & _ & Hz).
  - reflexivity.
  - exists p. split; [exact Hp|]. apply Hz.
    + repeat constructor.
    + reflexivity.
Defined.

(** The velocity (3, 4) against the gradients (1, 0) on the one pixel. *)
Lemma prediction_entries_in_stage_order_witness :
  ∃ flow u,
    _extrapolate_dense_flow_from_estimates ex_sobel ex_interpolate
      (prepared ex_init (ex_solver 1) [0%nat]) [3; 4]%float = Ok flow
    ∧ entry u 0 0 = Some (3 * 1 + 4 * 0)%float.
Proof.
  destruct (prediction_entries_in_stage_order ex_sobel ex_interpolate
              ex_gx ex_gy ex_warp (prepared ex_init (ex_solver 1) [0%nat])
              [3; 4]%float (mkRoi 0 1 0 1) None
              [[(3 / (3 + 0x1.a36e2eb1c432dp-14))%float]])
    as (flow & f0 & f1 & gx & gy & u & Hflow & Hf0 & Hf1 & Hg & _ & Hu & _).
  - vm_compute. reflexivity.
  - exists flow, u. split; [exact Hflow|].
    vm_compute in Hflow. injection Hflow as <-.
    injection Hf0 as <-. injection Hf1 as <-.
    destruct Hg as [-> ->].
    apply (Hu 0%nat 0%nat 3%float 1%float 4%float 0%float); reflexivity.
Defined.



(** Plain velocity with three entries to the block: every decode path
    raises. *)
Lemma decode_asserts_dimension_witness :
  _get_patch_flow ex_sobel (two_patches false 3) [1; 2; 3]%float
  = Raise AssertionError
  ∧ _get_patch_translation (two_patches false 3) [1; 2; 3]%float
    = Raise AssertionError
  ∧ _get_patch_poisson (two_patches false 3) [1; 2; 3]%float
    = Raise AssertionError.
Proof.
  destruct (decode_asserts_dimension ex_sobel (two_patches false 3)
              [1; 2; 3]%float) as (Hf & Ht & Hp & _).
  - eexists. reflexivity.
  - split; [by apply Hf|]. split; [by apply Ht|by apply Hp].
Defined.

(** * Further properties of the selector *)

Section SelectorBounds.
Variable Event : Type.
Variable crop_event : list Event → Z → Z → Z → Z → list Event.

Lemma seq_strongly_sorted (s n : nat) : StronglySorted lt (seq s n).
Proof.
  revert s. induction n as [|n IH]; intros s; simpl; constructor.
  - apply IH.
  - apply Forall_forall. intros j Hj%list_elem_of_In%in_seq. lia.
Qed.

Lemma filter_strongly_sorted (f : nat → bool) (l : list nat) :
  StronglySorted lt l → StronglySorted lt (List.filter f l).
Proof.
  induction 1 as [|a l Hl IH Ha]; simpl; [constructor|].
  destruct (f a); [|done]. constructor; [done|].
  apply Forall_forall. intros j [Hj _]%list_elem_of_In%filter_In.
  rewrite Forall_forall in Ha. apply Ha. by apply list_elem_of_In.
Qed.

(** X1.  The indices that the selection returns come in strictly increasing
    order, so without repetition, and each one is below [n_patch] and has a
    patch: the scatter of the codec can index the grid with them. *)
Theorem selected_indices_sorted_in_range (self : Solver)
    (events : list Event) (idx : list nat) :
  select_indices Event crop_event self events = Ok idx →
  StronglySorted lt idx
  ∧ NoDup idx
  ∧ Forall (λ i, (i < n_patch self)%nat ∧ (i < length (patches self))%nat) idx.
Proof.
  intros Hsel.
  assert (StronglySorted lt idx) as Hs.
  { rewrite (select_filter Event crop_event _ _ _ Hsel).
    apply filter_strongly_sorted, seq_strongly_sorted. }
  split; [done|]. split.
  - clear Hsel. induction Hs as [|a l Hl IH Ha]; constructor; [|done].
    intros Hin. rewrite Forall_forall in Ha. specialize (Ha a Hin). lia.
  - apply Forall_forall. intros i Hi.
    apply (elem_of_select Event crop_event _ _ _ i Hsel) in Hi as [Hn Ha].
    split; [done|]. unfold activeb in Ha.
    destruct (patches self !! i) as [p|] eqn:Hp; [|done].
    by eapply lookup_lt_Some.
Qed.

Lemma select_loop_no_threshold (self : Solver) (ev ev' : list Event)
    (range acc : list nat) :
  do_event_thresholding self = false →
  select_loop Event crop_event self ev range acc
  = select_loop Event crop_event self ev' range acc.
Proof.
  intros Hoff. revert acc. induction range as [|i range IH]; intros acc;
    simpl; [done|].
  destruct (patch_at self i) as [p|e]; simpl; [|done].
  destruct (skip_x self p); [apply IH|].
  destruct (skip_y self p); [apply IH|].
  unfold enough_events. rewrite Hoff. simpl. apply IH.
Qed.

(** X2.  With event thresholding off, the selection does not depend on the
    events: it is the same for any two event streams, and a patch is in it
    exactly when its centre lies within the bounds of the region of
    interest. *)
Theorem selection_without_threshold (self : Solver) (ev ev' : list Event) :
  do_event_thresholding self = false →
  select_indices Event crop_event self ev
  = select_indices Event crop_event self ev'
  ∧ (∀ idx i, select_indices Event crop_event self ev = Ok idx →
       (i ∈ idx ↔ ∃ p, (i < n_patch self)%nat ∧ patches self !! i = Some p
                       ∧ center_in_roi self p)).
Proof.
  intros Hoff. split; [by apply select_loop_no_threshold|].
  intros idx i Hsel.
  rewrite (elem_of_select Event crop_event _ _ _ i Hsel), active_iff.
  split.
  - intros (Hi & p & Hp & Hc & _). by exists p.
  - intros (p & Hi & Hp & Hc). split; [done|]. exists p. by auto.
Qed.

(** X3.  Raising [event_thres] can only shrink the selection: every patch
    selected at the higher threshold is selected at the lower one. *)
Theorem selection_antitone_in_threshold (self : Solver)
    (events : list Event) (t t' : Z) (idx idx' : list nat) :
  t ≤ t' →
  select_indices Event crop_event (with_event_thres self t) events = Ok idx →
  select_indices Event crop_event (with_event_thres self t') events
  = Ok idx' →
  ∀ i, i ∈ idx' → i ∈ idx.
Proof.
  intros Hle Hsel Hsel' i.
  rewrite (elem_of_select Event crop_event _ _ _ i Hsel).
  rewrite (elem_of_select Event crop_event _ _ _ i Hsel').
  rewrite !active_iff. simpl.
  intros (Hi & p & Hp & Hc & He). split; [done|]. exists p.
  split; [done|]. split; [done|].
  destruct He as [He|He]; [by left|right; lia].
Qed.

End SelectorBounds.

(** The selection among the three patches is sorted and within the grid. *)
Lemma selected_indices_sorted_in_range_witness :
  StronglySorted lt [0%nat] ∧ NoDup [0%nat].
Proof.
  destruct (selected_indices_sorted_in_range (Z * Z) crop_box sel_solver
              sel_events [0%nat]) as (Hs & Hn & _).
  - reflexivity.
  - split; [exact Hs|exact Hn].
Defined.

(** The three patches with thresholding off, with and without events. *)
Lemma selection_without_threshold_witness :
  select_indices (Z * Z) crop_box
    (mkSolver 3 sel_patches (1%nat, 3%nat) 0 5 0 5 false 10
       false false false false 1 [] 0 0) sel_events
  = select_indices (Z * Z) crop_box
      (mkSolver 3 sel_patches (1%nat, 3%nat) 0 5 0 5 false 10
         false false false false 1 [] 0 0) [].
Proof.
  apply (selection_without_threshold (Z * Z) crop_box).
  reflexivity.
Defined.

(** The thresholds 8 and 10 over the three patches: the second patch, with
    9 events, is selected at 8 only. *)
Lemma selection_antitone_in_threshold_witness :
  0%nat ∈ [0%nat; 1%nat].
Proof.
  apply (selection_antitone_in_threshold (Z * Z) crop_box sel_solver
           sel_events 8 10 [0%nat; 1%nat] [0%nat]).
  - lia.
  - reflexivity.
  - reflexivity.
  - constructor.
Defined.

(** * Further properties of the loop and of [estimate] *)

Lemma float_ltb_irrefl (a : float) : (a <? a)%float = false.
Proof.
  destruct (a <? a)%float eqn:Haa; [|done].
  by destruct (float_ltb_neq a a Haa).
Qed.

Lemma SFltb_trans (x y z : spec_float) :
  SFltb x y = true → SFltb y z = true → SFltb x z = true.
Proof.
  unfold SFltb.
  destruct x as [sx|sx| |sx mx ex], y as [sy|sy| |sy my ey],
           z as [sz|sz| |sz mz ez]; simpl;
    repeat match goal with s : bool |- _ => destruct s end; simpl;
    try done.
  all: repeat match goal with
       | |- context [Z.compare ?a ?b] => destruct (Z.compare_spec a b); simpl
       end; try done; try lia.
  all: change (Pos.compare_cont Eq) with Pos.compare.
  all: destruct (Pos.compare_spec mx my), (Pos.compare_spec my mz),
         (Pos.compare_spec mx mz); simpl; try done; lia.
Qed.

Lemma float_ltb_trans (a b c : float) :
  (a <? b)%float = true → (b <? c)%float = true → (a <? c)%float = true.
Proof. rewrite !FloatAxioms.ltb_spec. apply SFltb_trans. Qed.

Section LoopRecord.
Context {A : Type} `{Scalar A} `{Trig A} `{LinalgNorm A}.
Variable Event : Type.
Variable crop_event : list Event → Z → Z → Z → Z → list Event.
Variable SobelTorch : Tensor A → result (Tensor A).
Variable interpolate_dense_flow_from_patch_tensor :
  Tensor A → result (Dense A).
Variable interpolate_dense_poisson_from_patch_tensor :
  Tensor A → result (Dense A).
Variable _gradient_x_torch : Matrix A.
Variable _gradient_y_torch : Matrix A.
Variable warp_image_forward : Matrix A → Dense A → result (Matrix A).
Variable _initialize_velocity : list A.
Variable _make_measured_increment :
  Solver → list Event → Roi → result (Matrix A * option (Matrix A)).
Variable cost_func : Matrix A → Matrix A → option (Matrix A) → result float.
Variable loss_backward :
  Solver → list A → Matrix A → Roi → option (Matrix A) → result (list A).
Variable Optimizer : Type.
Variable optimizer_new : float → nat → float → Optimizer.
Variable optimizer_step : Optimizer → list A → list A → Optimizer * list A.
Variable scheduler_step : Optimizer → Optimizer.
Variable debug_enabled : bool.
Variable visualize_flow : Dense A → result unit.
Variable visualize_poisson : Dense A → result unit.
Variable visualize_diff : Matrix A → Matrix A → result unit.

Abbreviation objective :=
  (_objective_scipy SobelTorch interpolate_dense_flow_from_patch_tensor
     _gradient_x_torch _gradient_y_torch warp_image_forward cost_func).
Abbreviation visualize :=
  (visualize_evolution SobelTorch interpolate_dense_flow_from_patch_tensor
     interpolate_dense_poisson_from_patch_tensor
     _gradient_x_torch _gradient_y_torch warp_image_forward
     debug_enabled visualize_flow visualize_poisson visualize_diff).
Abbreviation loop :=
  (optimize SobelTorch interpolate_dense_flow_from_patch_tensor
     interpolate_dense_poisson_from_patch_tensor
     _gradient_x_torch _gradient_y_torch warp_image_forward
     cost_func loss_backward Optimizer optimizer_step scheduler_step
     debug_enabled visualize_flow visualize_poisson visualize_diff).
Abbreviation run_estimate :=
  (estimate Event crop_event SobelTorch
     interpolate_dense_flow_from_patch_tensor
     interpolate_dense_poisson_from_patch_tensor
     _gradient_x_torch _gradient_y_torch warp_image_forward
     _initialize_velocity _make_measured_increment
     cost_func loss_backward Optimizer optimizer_new optimizer_step
     scheduler_step debug_enabled visualize_flow visualize_poisson
     visualize_diff).
Abbreviation reconstruct :=
  (_extrapolate_dense_flow_from_estimates SobelTorch
     interpolate_dense_flow_from_patch_tensor).

Abbreviation prepared := (prepared _initialize_velocity).
Abbreviation initial_parameters := (initial_parameters _initialize_velocity).
Abbreviation initial_state :=
  (initial_state _initialize_velocity Optimizer optimizer_new).
Abbreviation full_iteration :=
  (full_iteration SobelTorch interpolate_dense_flow_from_patch_tensor
     interpolate_dense_poisson_from_patch_tensor
     _gradient_x_torch _gradient_y_torch warp_image_forward
     cost_func loss_backward Optimizer optimizer_step scheduler_step
     debug_enabled visualize_flow visualize_poisson visualize_diff).
Abbreviation iterate :=
  (iterate SobelTorch interpolate_dense_flow_from_patch_tensor
     interpolate_dense_poisson_from_patch_tensor
     _gradient_x_torch _gradient_y_torch warp_image_forward
     cost_func loss_backward Optimizer optimizer_step scheduler_step
     debug_enabled visualize_flow visualize_poisson visualize_diff).
Abbreviation backward_raises :=
  (backward_raises SobelTorch interpolate_dense_flow_from_patch_tensor
     interpolate_dense_poisson_from_patch_tensor
     _gradient_x_torch _gradient_y_torch warp_image_forward
     cost_func loss_backward Optimizer
     debug_enabled visualize_flow visualize_poisson visualize_diff).
Abbreviation current := (current Optimizer).

Local Arguments _objective_scipy : simpl never.
Local Arguments visualize_evolution : simpl never.

(** The record of the loop, from any state: the minimum only decreases, no
    loss computed on the way is below the final minimum, and a record that
    changed is the loss of the iteration it names. *)
Lemma loop_record (self : Solver) (x0 : loc) (m : Matrix A) (roi : Roi)
    (w : option (Matrix A)) (n s : nat) (st st' : LoopState Optimizer) :
  loop self x0 m roi w (seq s n) st = Ok st' →
  (PrimFloat.is_nan (min_loss Optimizer st) = false →
   PrimFloat.is_nan (min_loss Optimizer st') = false)
  ∧ (∀ j xj lj, (j < n)%nat →
       iterate self m roi w j (current x0 st) = Some xj →
       objective self xj.1 m roi w = Ok lj →
       (lj <? min_loss Optimizer st')%float = false)
  ∧ ((min_loss Optimizer st' = min_loss Optimizer st
      ∧ best_it Optimizer st' = best_it Optimizer st)
     ∨ (∃ j xj, (j < n)%nat
          ∧ iterate self m roi w j (current x0 st) = Some xj
          ∧ objective self xj.1 m roi w = Ok (min_loss Optimizer st')
          ∧ best_it Optimizer st' = (s + j)%nat
          ∧ (min_loss Optimizer st' <? min_loss Optimizer st)%float = true)).
Proof.
  revert s st. induction n as [|n IH]; intros s st Hloop.
  { simpl in Hloop. injection Hloop as <-.
    split; [done|]. split; [intros; lia|by left]. }
  simpl in Hloop. rewrite !read_write in Hloop. simpl in Hloop.
  destruct (objective self (value (read (store Optimizer st) x0)) m roi w)
    as [l|] eqn:Ho; simpl in Hloop; [|done].
  destruct (visualize self (value (read (store Optimizer st) x0)) m w roi)
    as [u|] eqn:Hv; simpl in Hloop; [|done].
  set (m0 := min_loss Optimizer st) in *.
  assert (∀ m1 : float,
            m1 = (if (l <? m0)%float then l else m0) →
            (l <? m1)%float = false
            ∧ (PrimFloat.is_nan m0 = false → PrimFloat.is_nan m1 = false)
            ∧ (m1 = m0 ∨ (m1 <? m0)%float = true)) as Hfirst.
  { intros m1 ->. destruct (l <? m0)%float eqn:Hlt.
    - split; [apply float_ltb_irrefl|]. split; [|by right].
      intros _. destruct (PrimFloat.is_nan l) eqn:Hnan; [|done].
      by rewrite (nan_ltb l m0 Hnan) in Hlt.
    - split; [done|]. split; [done|by left]. }
  destruct (loss_backward self (value (read (store Optimizer st) x0)) m roi w)
    as [g|e] eqn:Hb.
  - rewrite !read_write in Hloop. simpl in Hloop.
    match type of Hloop with ?f ?s1 = Ok _ => set (st1 := s1) in * end.
    assert (min_loss Optimizer st1 = (if (l <? m0)%float then l else m0))
      as Hmin1 by (subst st1; simpl; by destruct (l <? m0)%float).
    assert (best_it Optimizer st1
            = (if (l <? m0)%float then s else best_it Optimizer st))
      as Hbi1 by (subst st1; simpl; by destruct (l <? m0)%float).
    assert (∀ j, iterate self m roi w (S j) (current x0 st)
                 = iterate self m roi w j (current x0 st1)) as Hstep.
    { intros j. simpl. unfold full_iteration, current. simpl.
      rewrite Ho, Hv, Hb. simpl. subst st1. simpl. by rewrite read_write. }
    apply IH in Hloop as (Hnan & Hlow & Hrec).
    rewrite Hmin1 in Hnan, Hrec. rewrite Hbi1 in Hrec.
    destruct (Hfirst _ eq_refl) as (Hl1 & Hn1 & Hm1).
    assert (min_loss Optimizer st' = (if (l <? m0)%float then l else m0)
            ∨ (min_loss Optimizer st' <? (if (l <? m0)%float then l else m0))%float
              = true) as Hmono.
    { destruct Hrec as [[-> _]|(j & xj & _ & _ & _ & _ & Hlt)];
        [by left|by right]. }
    split; [by auto|]. split.
    + intros [|j] xj lj Hj Hit Hlj.
      * simpl in Hit. injection Hit as <-. simpl in Hlj.
        assert (lj = l) as -> by congruence.
        destruct Hmono as [->|Hlt]; [done|].
        destruct (l <? min_loss Optimizer st')%float eqn:Hll; [|done].
        by rewrite (float_ltb_trans _ _ _ Hll Hlt) in Hl1.
      * rewrite Hstep in Hit. apply (Hlow j xj lj); [lia|done|done].
    + destruct Hrec as [[Hsame Hit]|(j & xj & Hj & Hit & Hobj & Hbi & Hlt)].
      * destruct (l <? m0)%float eqn:Hlt0.
        -- right. exists 0%nat, (current x0 st). split; [lia|].
           split; [done|]. simpl. rewrite Hsame, Hit.
           split; [done|]. split; [lia|done].
        -- left. by rewrite Hsame, Hit.
      * right. exists (S j), xj. split; [lia|]. rewrite Hstep.
        split; [done|]. split; [done|]. split; [lia|].
        destruct Hm1 as [Heq|Hlt1]; [by rewrite <- Heq|].
        by apply (float_ltb_trans _ _ _ Hlt).
  - injection Hloop as <-. simpl.
    destruct (Hfirst _ eq_refl) as (Hl1 & Hn1 & Hm1).
    assert ((if (l <? m0)%float then x0 else best_x Optimizer st, 
             if (l <? m0)%float then s else best_it Optimizer st,
             if (l <? m0)%float then l else m0)
            = (if (l <? m0)%float then (x0, s, l)
               else (best_x Optimizer st, best_it Optimizer st, m0))) as Hif
      by (by destruct (l <? m0)%float).
    assert (∀ b : bool,
              (if b then (x0, s, l) else (best_x Optimizer st, best_it Optimizer st, m0)).2
              = (if b then l else m0)) as Hp2 by (by intros []).
    assert (∀ b : bool,
              (if b then (x0, s, l) else (best_x Optimizer st, best_it Optimizer st, m0)).1.2
              = (if b then s else best_it Optimizer st)) as Hp1 by (by intros []).
    rewrite !Hp2, !Hp1.
    split; [done|]. split.
    + intros [|j] xj lj Hj Hit Hlj.
      * simpl in Hit. injection Hit as <-. simpl in Hlj.
        assert (lj = l) as -> by congruence. done.
      * simpl in Hit. unfold full_iteration, current in Hit. simpl in Hit.
        by rewrite Ho, Hv, Hb in Hit.
    + destruct (l <? m0)%float eqn:Hlt0.
      * right. exists 0%nat, (current x0 st). split; [lia|].
        split; [done|]. split; [done|]. split; [lia|done].
      * by left.
Qed.

(** X4.  Whenever the loop returns, its scalar record is the least loss:
    [min_loss] is never a NaN, no loss computed in an iteration that ran
    is below it, and it is either still +infinity with [best_it = 0] (no
    loss was below +infinity) or the loss of the iterate of iteration
    [best_it]. *)
Theorem best_record_is_least_loss (self self' : Solver) (idx : list nat)
    (m : Matrix A) (roi : Roi) (w : option (Matrix A)) (n : nat)
    (st : LoopState Optimizer) :
  let start :=
    (initial_parameters idx, optimizer_new lr (n_iter self) lr_decay) in
  optimize SobelTorch interpolate_dense_flow_from_patch_tensor
    interpolate_dense_poisson_from_patch_tensor
    _gradient_x_torch _gradient_y_torch warp_image_forward
    cost_func loss_backward Optimizer optimizer_step scheduler_step
    debug_enabled visualize_flow visualize_poisson visualize_diff
    self' 0%nat m roi w (seq 0 n) (initial_state self idx) = Ok st →
  PrimFloat.is_nan (min_loss Optimizer st) = false
  ∧ (∀ j xj lj, (j < n)%nat →
       iterate self' m roi w j start = Some xj →
       objective self' xj.1 m roi w = Ok lj →
       (lj <? min_loss Optimizer st)%float = false)
  ∧ ((min_loss Optimizer st = infinity ∧ best_it Optimizer st = 0%nat)
     ∨ (∃ xj, (best_it Optimizer st < n)%nat
          ∧ iterate self' m roi w (best_it Optimizer st) start = Some xj
          ∧ objective self' xj.1 m roi w = Ok (min_loss Optimizer st))).
Proof.
  intros start Hloop.
  apply loop_record in Hloop as (Hnan & Hlow & Hrec).
  rewrite current_initial_state in Hlow, Hrec.
  split; [by apply Hnan|]. split; [exact Hlow|].
  destruct Hrec as [[Hm Hb]|(j & xj & Hj & Hit & Hobj & Hbi & _)].
  - left. by rewrite Hm, Hb.
  - right. exists xj. simpl in Hbi. rewrite Hbi. by auto.
Qed.

(** X5.  An exception that leaves the loop was raised by the objective or
    by the visualisation: the backward pass never makes the loop raise. *)
Theorem loop_raises_only_from_forward (self : Solver) (x0 : loc)
    (m : Matrix A) (roi : Roi) (w : option (Matrix A)) (range : list nat)
    (st : LoopState Optimizer) (e : exn) :
  optimize SobelTorch interpolate_dense_flow_from_patch_tensor
    interpolate_dense_poisson_from_patch_tensor
    _gradient_x_torch _gradient_y_torch warp_image_forward
    cost_func loss_backward Optimizer optimizer_step scheduler_step
    debug_enabled visualize_flow visualize_poisson visualize_diff
    self x0 m roi w range st = Raise e →
  ∃ x, objective self x m roi w = Raise e
       ∨ visualize self x m w roi = Raise e.
Proof.
  revert st. induction range as [|it range IH]; intros st Hloop; [done|].
  simpl in Hloop. rewrite !read_write in Hloop. simpl in Hloop.
  destruct (objective self (value (read (store Optimizer st) x0)) m roi w)
    as [l|e1] eqn:Ho; simpl in Hloop.
  2:{ injection Hloop as ->. eexists. left. exact Ho. }
  destruct (visualize self (value (read (store Optimizer st) x0)) m w roi)
    as [u|e1] eqn:Hv; simpl in Hloop.
  2:{ injection Hloop as ->. eexists. right. exact Hv. }
  destruct (loss_backward self (value (read (store Optimizer st) x0)) m roi w)
    as [g|e1]; [|done].
  by apply IH in Hloop.
Qed.

(** The loop from iteration [s] on, when the objective or the visualisation
    raises [k] iterations later. *)
Lemma loop_forward_raise (self : Solver) (x0 : loc) (m : Matrix A)
    (roi : Roi) (w : option (Matrix A)) (n s k : nat)
    (st : LoopState Optimizer) (xo : list A * Optimizer) (e : exn) :
  (k < n)%nat →
  iterate self m roi w k (current x0 st) = Some xo →
  objective self xo.1 m roi w = Raise e
  ∨ (∃ l, objective self xo.1 m roi w = Ok l
          ∧ visualize self xo.1 m w roi = Raise e) →
  loop self x0 m roi w (seq s n) st = Raise e.
Proof.
  revert s k st. induction n as [|n IH]; intros s k st Hk Hit Hraise; [lia|].
  simpl. rewrite !read_write. simpl. destruct k as [|k].
  - simpl in Hit. injection Hit as <-. simpl in Hraise.
    destruct Hraise as [Ho|(l & Ho & Hv)]; rewrite Ho; simpl; [done|].
    by rewrite Hv.
  - simpl in Hit. unfold full_iteration, current in Hit. simpl in Hit.
    destruct (objective self (value (read (store Optimizer st) x0)) m roi w)
      as [l|]; simpl in *; [|done].
    destruct (visualize self (value (read (store Optimizer st) x0)) m w roi)
      as [u|]; simpl in *; [|done].
    destruct (loss_backward self (value (read (store Optimizer st) x0))
                m roi w) as [g|]; simpl in *; [|done].
    rewrite !read_write. simpl.
    apply (IH (S s) k); [lia| |exact Hraise].
    unfold current. simpl. by rewrite read_write.
Qed.

(** X6.  An exception of the forward pass is not caught: when the objective
    or the visualisation raises at an iteration that is reached, [estimate]
    raises that exception. *)
Theorem forward_exception_leaves_estimate (self : Solver)
    (events : list Event) (idx : list nat)
    (m : Matrix A * option (Matrix A)) (k : nat)
    (xo : list A * Optimizer) (e : exn) :
  let self' := prepared self idx in
  select_indices Event crop_event self events = Ok idx →
  idx ≠ [] →
  _make_measured_increment self' events (roi_of self') = Ok m →
  (k < n_iter self)%nat →
  iterate self' m.1 (roi_of self') m.2 k
    (initial_parameters idx, optimizer_new lr (n_iter self) lr_decay)
  = Some xo →
  objective self' xo.1 m.1 (roi_of self') m.2 = Raise e
  ∨ (∃ l, objective self' xo.1 m.1 (roi_of self') m.2 = Ok l
          ∧ visualize self' xo.1 m.1 m.2 (roi_of self') = Raise e) →
  run_estimate self events = Raise e.
Proof.
  intros self' Hsel Hne Hm Hk Hit Hraise. subst self'.
  rewrite <- current_initial_state in Hit.
  pose proof (loop_forward_raise (prepared self idx) 0%nat m.1 (roi_of (prepared self idx)) m.2 _
                0%nat k _ _ e Hk Hit Hraise) as Hloop.
  rewrite estimate_unfold, Hsel, bind_Ok_l.
  assert (np_concatenate (replicate (length idx) _initialize_velocity)
          = Ok (initial_parameters idx)) as -> by (by destruct idx).
  rewrite bind_Ok_l, Hm, bind_Ok_l.
  unfold initial_state in Hloop. by rewrite Hloop.
Qed.

(** X7.  With no active patch [estimate] raises [ValueError]: numpy has
    nothing to concatenate into the initial parameter vector. *)
Theorem estimate_raises_without_active_patch (self : Solver)
    (events : list Event) :
  select_indices Event crop_event self events = Ok [] →
  run_estimate self events = Raise ValueError.
Proof. intros Hsel. by rewrite estimate_unfold, Hsel. Qed.

(** X9.  With [n_iter = 0] the loop body never runs: [estimate] returns
    the reconstruction of the initial parameter vector. *)
Theorem estimate_without_iterations (self : Solver) (events : list Event)
    (idx : list nat) (m : Matrix A * option (Matrix A)) :
  let self' := prepared self idx in
  n_iter self = 0%nat →
  select_indices Event crop_event self events = Ok idx →
  idx ≠ [] →
  _make_measured_increment self' events (roi_of self') = Ok m →
  run_estimate self events
  = d ← reconstruct self' (initial_parameters idx);
    Ok (d, incr_iter_cnt self').
Proof.
  intros self' Hn Hsel Hne Hm.
  apply (estimate_after_all_iterations Event crop_event SobelTorch
           interpolate_dense_flow_from_patch_tensor
           interpolate_dense_poisson_from_patch_tensor
           _gradient_x_torch _gradient_y_torch warp_image_forward
           _initialize_velocity _make_measured_increment cost_func
           loss_backward Optimizer optimizer_new optimizer_step
           scheduler_step debug_enabled visualize_flow visualize_poisson
           visualize_diff self events idx m
           (initial_parameters idx, optimizer_new lr (n_iter self) lr_decay)
           Hsel Hne Hm).
  by rewrite Hn.
Qed.

Lemma iterate_cases (self : Solver) (m : Matrix A) (roi : Roi)
    (w : option (Matrix A)) (n : nat) (xo : list A * Optimizer) :
  (∃ xo', iterate self m roi w n xo = Some xo')
  ∨ (∃ k xo', (k < n)%nat ∧ iterate self m roi w k xo = Some xo'
              ∧ full_iteration self m roi w xo' = None).
Proof.
  induction n as [|n IH]; [left; by eexists|].
  destruct IH as [[xo' Hn]|(k & xo' & Hk & Hit & Hf)].
  - erewrite iterate_succ by exact Hn.
    destruct (full_iteration self m roi w xo') as [xo''|] eqn:Hf.
    + left. by eexists.
    + right. exists n, xo'. split; [lia|done].
  - right. exists k, xo'. split; [lia|done].
Qed.

Lemma full_iteration_None (self : Solver) (m : Matrix A) (roi : Roi)
    (w : option (Matrix A)) (xo : list A * Optimizer) :
  full_iteration self m roi w xo = None →
  (∃ e, objective self xo.1 m roi w = Raise e
        ∨ (∃ l, objective self xo.1 m roi w = Ok l
                ∧ visualize self xo.1 m w roi = Raise e))
  ∨ (∃ e, backward_raises self m roi w xo e).
Proof.
  unfold full_iteration, backward_raises.
  destruct (objective self xo.1 m roi w) as [l|e] eqn:Ho;
    [|intros _; left; exists e; by left].
  destruct (visualize self xo.1 m w roi) as [[]|e] eqn:Hv;
    [|intros _; left; exists e; right; by exists l].
  destruct (loss_backward self xo.1 m roi w) as [g|e] eqn:Hb; [done|].
  intros _. right. exists e, l. done.
Qed.

(** X18.  The three ways in which the loop ends.  From any state, the loop
    over [n] iterations either returns after all [n] ran in full, with
    nothing logged; or returns at the first iteration whose backward pass
    raises, with the parameter tensor holding the iterate of that
    iteration and exactly that one exception logged; or raises the
    exception of the first objective or visualisation that raises. *)
Theorem loop_ends_in_one_of_three_ways (self : Solver) (x0 : loc)
    (m : Matrix A) (roi : Roi) (w : option (Matrix A)) (n s : nat)
    (st : LoopState Optimizer) :
  let start := current x0 st in
  (∃ st', loop self x0 m roi w (seq s n) st = Ok st'
     ∧ iterate self m roi w n start = Some (current x0 st')
     ∧ logged Optimizer st' = logged Optimizer st)
  ∨ (∃ st' k e, (k < n)%nat
       ∧ loop self x0 m roi w (seq s n) st = Ok st'
       ∧ iterate self m roi w k start = Some (current x0 st')
       ∧ backward_raises self m roi w (current x0 st') e
       ∧ logged Optimizer st' = logged Optimizer st ++ [e])
  ∨ (∃ k xo e, (k < n)%nat
       ∧ loop self x0 m roi w (seq s n) st = Raise e
       ∧ iterate self m roi w k start = Some xo
       ∧ (objective self xo.1 m roi w = Raise e
          ∨ (∃ l, objective self xo.1 m roi w = Ok l
                  ∧ visualize self xo.1 m w roi = Raise e))).
Proof.
  intros start.
  destruct (iterate_cases self m roi w n start)
    as [[xo Hn]|(k & xo & Hk & Hit & Hf)].
  - left.
    edestruct loop_exhausted as (st' & Hl & Hc & Hlog & _); [exact Hn|].
    exists st'. split; [exact Hl|]. by rewrite Hc.
  - apply full_iteration_None in Hf as [[e Hraise]|[e Hb]].
    + right. right. exists k, xo, e. split; [done|]. split; [|done].
      by apply (loop_forward_raise self x0 m roi w n s k st xo e).
    + right. left.
      edestruct loop_break as (st' & Hl & Hc & Hlog & _);
        [exact Hk|exact Hit|exact Hb|].
      exists st', k, e. split; [done|]. split; [exact Hl|].
      rewrite Hc. done.
Qed.

End LoopRecord.

(** Two iterations towards the target 0.4. *)
Lemma best_record_is_least_loss_witness :
  ∃ st, ex_optimize target_04 never 2 = Ok st
        ∧ PrimFloat.is_nan (min_loss Sgd st) = false.
Proof.
  eexists. split; [vm_compute; reflexivity|].
  eapply (proj1 (best_record_is_least_loss ex_sobel ex_interpolate
                   ex_interpolate ex_gx ex_gy ex_warp ex_init ex_cost
                   (ex_backward never) Sgd sgd_new sgd_step step_lr false
                   ex_sink_d ex_sink_d ex_sink_m (ex_solver 2)
                   (prepared ex_init (ex_solver 2) [0%nat]) [0%nat]
                   [[target_04]] (mkRoi 0 1 0 1) None 2 _ _)).
  Unshelve. vm_compute. reflexivity.
Defined.

(** The cost of one pixel against a measured increment of two. *)
Lemma loop_raises_only_from_forward_witness :
  ∃ x, _objective_scipy ex_sobel ex_interpolate ex_gx ex_gy ex_warp ex_cost
         (prepared ex_init (ex_solver 1) [0%nat]) x
         [[0%float; 0%float]] (mkRoi 0 1 0 1) None = Raise RuntimeError
       ∨ visualize_evolution ex_sobel ex_interpolate ex_interpolate
           ex_gx ex_gy ex_warp false ex_sink_d ex_sink_d ex_sink_m
           (prepared ex_init (ex_solver 1) [0%nat]) x
           [[0%float; 0%float]] None (mkRoi 0 1 0 1) = Raise RuntimeError.
Proof.
  apply (loop_raises_only_from_forward ex_sobel ex_interpolate
           ex_interpolate ex_gx ex_gy ex_warp ex_cost (ex_backward never)
           Sgd sgd_step step_lr false ex_sink_d ex_sink_d ex_sink_m
           (prepared ex_init (ex_solver 1) [0%nat]) 0%nat
           [[0%float; 0%float]] (mkRoi 0 1 0 1) None (seq 0 1)
           (initial_state ex_init Sgd sgd_new (ex_solver 1) [0%nat])).
  vm_compute. reflexivity.
Defined.

Lemma forward_exception_leaves_estimate_witness :
  estimate unit ex_crop_event ex_sobel ex_interpolate ex_interpolate
    ex_gx ex_gy ex_warp ex_init ex_measured_wide ex_cost
    (ex_backward never) Sgd sgd_new sgd_step step_lr
    false ex_sink_d ex_sink_d ex_sink_m (ex_solver 1) []
  = Raise RuntimeError.
Proof.
  apply (forward_exception_leaves_estimate unit ex_crop_event ex_sobel
           ex_interpolate ex_interpolate ex_gx ex_gy ex_warp ex_init
           ex_measured_wide ex_cost (ex_backward never) Sgd sgd_new
           sgd_step step_lr false ex_sink_d ex_sink_d ex_sink_m
           (ex_solver 1) [] [0%nat] ([[0%float; 0%float]], None) 0%nat
           (initial_parameters ex_init [0%nat], sgd_new lr 1 lr_decay)).
  - reflexivity.
  - discriminate.
  - reflexivity.
  - simpl. lia.
  - reflexivity.
  - left. vm_compute. reflexivity.
Defined.

Lemma estimate_raises_without_active_patch_witness :
  estimate unit ex_crop_event ex_sobel ex_interpolate ex_interpolate
    ex_gx ex_gy ex_warp ex_init (ex_measured target_04) ex_cost
    (ex_backward never) Sgd sgd_new sgd_step step_lr
    false ex_sink_d ex_sink_d ex_sink_m ex_solver_outside []
  = Raise ValueError.
Proof.
  apply (estimate_raises_without_active_patch unit ex_crop_event ex_sobel
           ex_interpolate ex_interpolate ex_gx ex_gy ex_warp ex_init
           (ex_measured target_04) ex_cost (ex_backward never) Sgd sgd_new
           sgd_step step_lr false ex_sink_d ex_sink_d ex_sink_m
           ex_solver_outside []).
  reflexivity.
Defined.

Lemma estimate_without_iterations_witness :
  ex_estimate target_04 never 0
  = d ← ex_reconstruct 0 [0; 0]%float;
    Ok (d, incr_iter_cnt (prepared ex_init (ex_solver 0) [0%nat])).
Proof.
  apply (estimate_without_iterations unit ex_crop_event ex_sobel
           ex_interpolate ex_interpolate ex_gx ex_gy ex_warp ex_init
           (ex_measured target_04) ex_cost (ex_backward never) Sgd sgd_new
           sgd_step step_lr false ex_sink_d ex_sink_d ex_sink_m
           (ex_solver 0) [] [0%nat] ([[target_04]], None)).
  - reflexivity.
  - reflexivity.
  - discriminate.
  - reflexivity.
Defined.

(** * Further properties of the codec *)

Section CodecRoundTrip.
Context {A : Type} `{Scalar A} `{Trig A}.
Variable SobelTorch : Tensor A → result (Tensor A).

Lemma gather_returns (d : list A) (offs : list nat) :
  Forall (λ o, is_Some (d !! o)) offs → returns (gather d offs).
Proof.
  induction 1 as [|o offs [a Ha] _ [vs IH]]; simpl; [by eexists|].
  rewrite Ha, IH. by eexists.
Qed.

Lemma broadcast_to_same (v : list A) : broadcast_to (length v) v = Ok v.
Proof. unfold broadcast_to. by rewrite Nat.eqb_refl. Qed.

(** [t[r, idx] += v] on a row that is zero at the indices, for indices
    within the row and without repetition and one value for each: it
    returns, and entry [idx[j]] of the row becomes [0 + v[j]]. *)
Lemma iadd_row_values (t : Tensor A) (n r : nat) (idx : list nat)
    (v : list A) :
  Forall (λ i, (i < n)%nat) idx → NoDup idx → length v = length idx →
  (∀ i, i ∈ idx → data t !! (r * n + i)%nat = Some s_zero) →
  ∃ t', iadd_row t n r idx v = Ok t'
    ∧ shape t' = shape t
    ∧ length (data t') = length (data t)
    ∧ (∀ o, o ∉ map (λ i, (r * n + i)%nat) idx → data t' !! o = data t !! o)
    ∧ (∀ j i a, idx !! j = Some i → v !! j = Some a →
         data t' !! (r * n + i)%nat = Some (s_add s_zero a)).
Proof.
  intros Hall Hnd Hlen Hzero.
  assert (returns (iadd_row t n r idx v)) as [t' Ht'].
  { unfold iadd_row.
    destruct (proj2 (row_offsets_Ok n r idx _) (conj Hall eq_refl)) as [].
    rewrite (proj2 (row_offsets_Ok n r idx _) (conj Hall eq_refl)). simpl.
    destruct (gather_returns (data t) (map (λ i, (r * n + i)%nat) idx))
      as [cur ->].
    { apply Forall_forall. intros o (i & -> & Hi)%list_elem_of_fmap.
      rewrite (Hzero i Hi). by eexists. }
    simpl. rewrite <- Hlen, broadcast_to_same. simpl. by eexists. }
  exists t'. split; [done|].
  apply iadd_row_Ok in Ht' as (Hsh & Hl & _ & Hout & Hin).
  split; [done|]. split; [done|]. split; [done|].
  intros j i a Hj Ha.
  destruct (Hin i) as (j' & c & b & v' & Hb & Hj' & _ & Hc & Hv' & Hval).
  { by eapply list_elem_of_lookup_2. }
  assert (j' = j) as -> by (by eapply NoDup_lookup).
  rewrite <- Hlen, broadcast_to_same in Hb. injection Hb as <-.
  rewrite (Hzero i) in Hc by (by eapply list_elem_of_lookup_2).
  injection Hc as <-. congruence.
Qed.

(** Two rows scattered one after the other onto zeros. *)
Lemma scatter_two_rows (n : nat) (idx : list nat) (vx vy : list A) :
  Forall (λ i, (i < n)%nat) idx → NoDup idx →
  length vx = length idx → length vy = length idx →
  ∃ t1 t2,
    iadd_row (zeros [2%nat; n]) n 0 idx vx = Ok t1
    ∧ iadd_row t1 n 1 idx vy = Ok t2
    ∧ length (data t2) = (2 * n)%nat
    ∧ (∀ j i a, idx !! j = Some i → vx !! j = Some a →
         data t2 !! i = Some (s_add s_zero a))
    ∧ (∀ j i a, idx !! j = Some i → vy !! j = Some a →
         data t2 !! (n + i)%nat = Some (s_add s_zero a)).
Proof.
  intros Hall Hnd Hx Hy.
  assert (∀ i, i ∈ idx → (i < n)%nat) as Hlt.
  { intros i Hi. rewrite Forall_forall in Hall. by apply Hall. }
  destruct (iadd_row_values (zeros [2%nat; n]) n 0 idx vx Hall Hnd Hx)
    as (t1 & Ht1 & _ & Hl1 & Hout1 & Hin1).
  { intros i Hi. apply zeros_lookup. simpl. specialize (Hlt i Hi). lia. }
  destruct (iadd_row_values t1 n 1 idx vy Hall Hnd Hy)
    as (t2 & Ht2 & _ & Hl2 & Hout2 & Hin2).
  { intros i Hi. rewrite Hout1.
    - apply zeros_lookup. simpl. specialize (Hlt i Hi). lia.
    - intros (i' & Heq & Hi')%list_elem_of_fmap. specialize (Hlt i' Hi'). lia. }
  exists t1, t2. split; [done|]. split; [done|]. split.
  { rewrite Hl2, Hl1, zeros_length. simpl. lia. }
  split.
  - intros j i a Hj Ha. rewrite Hout2.
    + by apply (Hin1 j i a).
    + intros (i' & Heq & Hi')%list_elem_of_fmap.
      specialize (Hlt i (list_elem_of_lookup_2 _ _ _ Hj)). lia.
  - intros j i a Hj Ha.
    replace (n + i)%nat with (1 * n + i)%nat by lia. by apply (Hin2 j i a).
Qed.

(** The parameter vector of whole blocks: position [r] of the blocks. *)
Lemma block_entries_concat (dim r : nat) (blocks : list (list A)) :
  Forall (λ b, length b = dim) blocks → (r < dim)%nat →
  block_entries dim r (concat blocks)
  = map (λ b, default s_zero (b !! r)) blocks.
Proof.
  intros Hb Hr. unfold block_entries.
  assert (length (concat blocks) = (length blocks * dim)%nat) as Hlen.
  { induction Hb as [|b bs Hl _ IH]; simpl; [done|].
    rewrite length_app, IH, Hl. lia. }
  rewrite Hlen, Nat.div_mul by lia.
  clear Hlen. induction Hb as [|b bs Hl Hbs IH]; simpl; [done|].
  f_equal.
  - by rewrite lookup_app_l by lia.
  - rewrite <- IH, <- seq_shift, map_map. apply map_ext. intros j.
    rewrite lookup_app_r by (rewrite Hl; lia). f_equal. f_equal.
    rewrite Hl. lia.
Qed.

Lemma reshape_T_concat (dim : nat) (blocks : list (list A)) :
  Forall (λ b, length b = dim) blocks → (0 < dim)%nat →
  reshape_T dim (concat blocks)
  = Ok (map (λ r, map (λ b, default s_zero (b !! r)) blocks) (seq 0 dim)).
Proof.
  intros Hb Hd. unfold reshape_T.
  assert (length (concat blocks) = (length blocks * dim)%nat) as Hlen.
  { induction Hb as [|b bs Hl _ IH]; simpl; [done|].
    rewrite length_app, IH, Hl. lia. }
  destruct (Nat.eqb_spec dim 0) as [->|_]; [lia|].
  rewrite Hlen, Nat.Div0.mod_mul. simpl. f_equal.
  apply map_ext_in. intros r Hr%in_seq.
  apply block_entries_concat; [done|lia].
Qed.

Lemma row_at_seq {B} (f : nat → list B) (dim r : nat) :
  (r < dim)%nat → row_at (map f (seq 0 dim)) r = Ok (f r).
Proof.
  intros Hr. unfold row_at.
  assert (map f (seq 0 dim) !! r = Some (f r)) as ->; [|done].
  change (map f (seq 0 dim)) with (f <$> seq 0 dim).
  rewrite list_lookup_fmap, lookup_seq_lt by done. done.
Qed.

(** X10.  The round trip of the velocity model.  For a parameter vector
    that is the concatenation of one block per active patch, with at least
    one active patch, active indices within the grid and without repetition
    and a grid of [n_patch] cells, [_get_patch_flow] returns a tensor of shape (2, h, w) in which
    the active patch [idx[j]] carries [0 + b[0]] and [0 + b[1]] of its
    block [b]; with four entries to the block, [_get_patch_translation]
    returns and the patch carries [0 + b[2]] and [0 + b[3]]. *)
Theorem velocity_blocks_round_trip (self : Solver) (blocks : list (list A)) :
  is_poisson_model self = false → is_angle_model self = false →
  dim_in (n_parameter_dim self) [2; 4]%nat = true →
  Forall (λ b, length b = n_parameter_dim self) blocks →
  estimate_indices self ≠ [] →
  length blocks = length (estimate_indices self) →
  Forall (λ i, (i < n_patch self)%nat) (estimate_indices self) →
  NoDup (estimate_indices self) →
  n_patch self = ((patch_image_size self).1 * (patch_image_size self).2)%nat →
  (∃ t, _get_patch_flow SobelTorch self (concat blocks) = Ok t
     ∧ shape t = grid_shape self 2
     ∧ ∀ j i b, estimate_indices self !! j = Some i → blocks !! j = Some b →
         data t !! i = Some (s_add s_zero (default s_zero (b !! 0%nat)))
         ∧ data t !! (n_patch self + i)%nat
           = Some (s_add s_zero (default s_zero (b !! 1%nat))))
  ∧ (n_parameter_dim self = 4%nat →
     ∃ t, _get_patch_translation self (concat blocks) = Ok t
       ∧ shape t = grid_shape self 2
       ∧ ∀ j i b, estimate_indices self !! j = Some i →
           blocks !! j = Some b →
           data t !! i = Some (s_add s_zero (default s_zero (b !! 2%nat)))
           ∧ data t !! (n_patch self + i)%nat
             = Some (s_add s_zero (default s_zero (b !! 3%nat)))).
Proof.
  intros Hp Hang Hdim Hb Hsome Hlen Hall Hnd Hgrid.
  assert (0 < n_parameter_dim self ∧ 1 < n_parameter_dim self)%nat as [Hd0 Hd1].
  { unfold dim_in in Hdim. apply bool_decide_eq_true in Hdim.
    apply elem_of_cons in Hdim as [->|Hdim]; [lia|].
    apply list_elem_of_singleton in Hdim as ->. lia. }
  assert (∀ r, length (map (λ b : list A, default s_zero (b !! r)) blocks)
               = length (estimate_indices self)) as Hrow.
  { intros r. by rewrite length_map. }
  assert (∀ (r : nat) (t2 : Tensor A),
            length (data t2) = (2 * n_patch self)%nat →
            reshape t2 (grid_shape self 2)
            = Ok (mkTensor (grid_shape self 2) (data t2))) as Hreshape.
  { intros r t2 Hl. unfold reshape.
    destruct (Nat.eqb_spec (numel (grid_shape self 2)) (length (data t2)))
      as [_|Hne]; [done|].
    exfalso. apply Hne. rewrite Hl, Hgrid. unfold grid_shape. simpl. lia. }
  assert (∀ r j b, blocks !! j = Some b →
            map (λ b : list A, default s_zero (b !! r)) blocks !! j
            = Some (default s_zero (b !! r))) as Hval.
  { intros r j b Hj.
    change (map ?f blocks) with (f <$> blocks).
    by rewrite list_lookup_fmap, Hj. }
  split.
  - destruct (scatter_two_rows (n_patch self) (estimate_indices self)
                _ _ Hall Hnd (Hrow 0%nat) (Hrow 1%nat))
      as (t1 & t2 & Ht1 & Ht2 & Hl & Hx & Hy).
    eexists. split.
    { unfold _get_patch_flow. rewrite Hp, Hang, Hdim.
      rewrite reshape_T_concat by done. simpl.
      rewrite !row_at_seq by done. simpl.
      rewrite Ht1. simpl. rewrite Ht2. simpl. by apply (Hreshape 0%nat). }
    split; [done|]. simpl. intros j i b Hj Hbj. split.
    + eapply Hx; [done|]. by apply Hval.
    + eapply Hy; [done|]. by apply Hval.
  - intros H4.
    destruct (scatter_two_rows (n_patch self) (estimate_indices self)
                _ _ Hall Hnd (Hrow 2%nat) (Hrow 3%nat))
      as (t1 & t2 & Ht1 & Ht2 & Hl & Hx & Hy).
    eexists. split.
    { unfold _get_patch_translation. rewrite Hp, Hang, H4.
      rewrite H4 in Hb. rewrite reshape_T_concat by (done || lia). simpl.
      rewrite Ht1. simpl. rewrite Ht2. simpl. by apply (Hreshape 0%nat). }
    split; [done|]. simpl. intros j i b Hj Hbj. split.
    + eapply Hx; [done|]. by apply Hval.
    + eapply Hy; [done|]. by apply Hval.
Qed.

(** X11.  The round trip of the intensity model, under the conditions of
    the velocity one: [_get_patch_poisson] returns a tensor of shape
    (1, h, w) in which the active patch [idx[j]] carries [0 + b[0]] of its
    block [b]; with three entries to the block, [_get_patch_translation]
    returns and the patch carries [0 + b[1]] and [0 + b[2]]. *)
Theorem intensity_blocks_round_trip (self : Solver) (blocks : list (list A)) :
  is_poisson_model self = true →
  dim_in (n_parameter_dim self) [1; 3]%nat = true →
  Forall (λ b, length b = n_parameter_dim self) blocks →
  estimate_indices self ≠ [] →
  length blocks = length (estimate_indices self) →
  Forall (λ i, (i < n_patch self)%nat) (estimate_indices self) →
  NoDup (estimate_indices self) →
  n_patch self = ((patch_image_size self).1 * (patch_image_size self).2)%nat →
  (∃ t, _get_patch_poisson self (concat blocks) = Ok t
     ∧ shape t = grid_shape self 1
     ∧ ∀ j i b, estimate_indices self !! j = Some i → blocks !! j = Some b →
         data t !! i = Some (s_add s_zero (default s_zero (b !! 0%nat))))
  ∧ (n_parameter_dim self = 3%nat →
     ∃ t, _get_patch_translation self (concat blocks) = Ok t
       ∧ shape t = grid_shape self 2
       ∧ ∀ j i b, estimate_indices self !! j = Some i →
           blocks !! j = Some b →
           data t !! i = Some (s_add s_zero (default s_zero (b !! 1%nat)))
           ∧ data t !! (n_patch self + i)%nat
             = Some (s_add s_zero (default s_zero (b !! 2%nat)))).
Proof.
  intros Hp Hdim Hb Hsome Hlen Hall Hnd Hgrid.
  assert (0 < n_parameter_dim self)%nat as Hd0.
  { unfold dim_in in Hdim. apply bool_decide_eq_true in Hdim.
    apply elem_of_cons in Hdim as [->|Hdim]; [lia|].
    apply list_elem_of_singleton in Hdim as ->. lia. }
  assert (∀ r, length (map (λ b : list A, default s_zero (b !! r)) blocks)
               = length (estimate_indices self)) as Hrow.
  { intros r. by rewrite length_map. }
  assert (∀ (c : nat) (t2 : Tensor A),
            length (data t2) = (c * n_patch self)%nat →
            reshape t2 (grid_shape self c)
            = Ok (mkTensor (grid_shape self c) (data t2))) as Hreshape.
  { intros c t2 Hl. unfold reshape.
    destruct (Nat.eqb_spec (numel (grid_shape self c)) (length (data t2)))
      as [_|Hne]; [done|].
    exfalso. apply Hne. rewrite Hl, Hgrid. unfold grid_shape. simpl. lia. }
  assert (∀ r j b, blocks !! j = Some b →
            map (λ b : list A, default s_zero (b !! r)) blocks !! j
            = Some (default s_zero (b !! r))) as Hval.
  { intros r j b Hj.
    change (map ?f blocks) with (f <$> blocks).
    by rewrite list_lookup_fmap, Hj. }
  split.
  - destruct (iadd_row_values (zeros [1%nat; n_patch self]) (n_patch self) 0
                (estimate_indices self) _ Hall Hnd (Hrow 0%nat))
      as (t1 & Ht1 & _ & Hl & _ & Hin).
    { intros i Hi. apply zeros_lookup. simpl.
      rewrite Forall_forall in Hall. specialize (Hall i Hi). simpl in Hall.
      lia. }
    eexists. split.
    { unfold _get_patch_poisson. rewrite Hp, Hdim.
      rewrite reshape_T_concat by done. simpl.
      rewrite row_at_seq by done. simpl.
      rewrite Ht1. simpl. apply Hreshape.
      rewrite Hl, zeros_length. simpl. lia. }
    split; [done|]. simpl. intros j i b Hj Hbj.
    apply (Hin j i _ Hj). by apply Hval.
  - intros H3.
    destruct (scatter_two_rows (n_patch self) (estimate_indices self)
                _ _ Hall Hnd (Hrow 1%nat) (Hrow 2%nat))
      as (t1 & t2 & Ht1 & Ht2 & Hl & Hx & Hy).
    eexists. split.
    { unfold _get_patch_translation. rewrite Hp, H3.
      rewrite H3 in Hb. rewrite reshape_T_concat by (done || lia). simpl.
      rewrite Ht1. simpl. rewrite Ht2. simpl. by apply Hreshape. }
    split; [done|]. simpl. intros j i b Hj Hbj. split.
    + eapply Hx; [done|]. by apply Hval.
    + eapply Hy; [done|]. by apply Hval.
Qed.

Lemma reshape_Ok_numel (t t' : Tensor A) (sh : list nat) :
  reshape t sh = Ok t' → numel sh = length (data t).
Proof.
  unfold reshape.
  destruct (Nat.eqb_spec (numel sh) (length (data t))); [done|]. done.
Qed.

Lemma grid_of_rows (self : Solver) (c : nat) (t0 t : Tensor A) :
  length (data t0) = (S c * n_patch self)%nat →
  reshape t0 (grid_shape self (S c)) = Ok t →
  shape t = grid_shape self (S c)
  ∧ length (data t) = (S c * n_patch self)%nat
  ∧ n_patch self
    = ((patch_image_size self).1 * (patch_image_size self).2)%nat.
Proof.
  intros Hl Hr. pose proof (reshape_Ok_numel _ _ _ Hr) as Hn.
  apply reshape_Ok in Hr as [Hs Hd]. split; [done|]. split; [congruence|].
  rewrite Hl in Hn. unfold grid_shape in Hn. simpl in Hn.
  rewrite Nat.mul_1_r in Hn.
  change (?a + c * ?a)%nat with (S c * a)%nat in Hn.
  apply Nat.mul_cancel_l in Hn; [done|lia].
Qed.

(** X12.  A field that a decode path returns fits the patch grid: it has
    the shape (c, h, w) with [c * n_patch] elements, and the grid has
    exactly [n_patch] cells.  [c] is 2 for the velocity or angle flow and
    for the translation, 1 for the intensity. *)
Theorem decoded_field_fits_grid (self : Solver) (parameters : list A)
    (c : nat) (t : Tensor A) :
  (c = 2%nat ∧ is_poisson_model self = false
   ∧ _get_patch_flow SobelTorch self parameters = Ok t)
  ∨ (c = 2%nat ∧ _get_patch_translation self parameters = Ok t)
  ∨ (c = 1%nat ∧ _get_patch_poisson self parameters = Ok t) →
  shape t = grid_shape self c
  ∧ length (data t) = (c * n_patch self)%nat
  ∧ n_patch self = ((patch_image_size self).1 * (patch_image_size self).2)%nat.
Proof.
  assert (∀ (t0 t1 t2 : Tensor A) vx vy,
            iadd_row (zeros [2%nat; n_patch self]) (n_patch self) 0
              (estimate_indices self) vx = Ok t1 →
            iadd_row t1 (n_patch self) 1 (estimate_indices self) vy = Ok t2 →
            length (data t2) = (2 * n_patch self)%nat)
    as Htwo.
  { intros _ t1 t2 vx vy (_ & Hl1 & _)%iadd_row_Ok
      (_ & Hl2 & _)%iadd_row_Ok.
    rewrite Hl2, Hl1, zeros_length. simpl. lia. }
  intros [(-> & Hp & Hf)|[(-> & Hf)|(-> & Hf)]].
  - unfold _get_patch_flow in Hf. rewrite Hp in Hf. inv_bind Hf.
    pose proof (Htwo a1 a1 a2 _ _ Ha1 Ha2) as Hl.
    exact (grid_of_rows self 1 _ _ Hl Hf).
  - unfold _get_patch_translation in Hf. inv_bind Hf.
    pose proof (Htwo a1 a1 a2 _ _ Ha1 Ha2) as Hl.
    exact (grid_of_rows self 1 _ _ Hl Hf).
  - unfold _get_patch_poisson in Hf. inv_bind Hf.
    pose proof Ha3 as (_ & Hl & _)%iadd_row_Ok.
    rewrite zeros_length in Hl.
    assert (length (data a3) = (1 * n_patch self)%nat) as Hl'.
    { rewrite Hl. simpl. lia. }
    exact (grid_of_rows self 0 _ _ Hl' Hf).
Qed.

End CodecRoundTrip.

(** ** The field the loop starts from *)

Section InitialField.
Context {A : Type} `{Scalar A} `{Trig A}.
Variable Event : Type.
Variable crop_event : list Event → Z → Z → Z → Z → list Event.
Variable SobelTorch : Tensor A → result (Tensor A).
Variable _initialize_velocity : list A.

Abbreviation prepared := (prepared _initialize_velocity).
Abbreviation initial_parameters := (initial_parameters _initialize_velocity).

Lemma strongly_sorted_NoDup (l : list nat) : StronglySorted lt l → NoDup l.
Proof.
  induction 1 as [|a l Hl IH Ha]; constructor; [|done].
  intros Hin. rewrite Forall_forall in Ha. specialize (Ha a Hin). lia.
Qed.

(** X13.  The patch flow of the first iteration, for the velocity model
    with an initial guess of two or four entries and a grid of [n_patch]
    cells: whatever patches the selection returned, at least one, the
    decode of the initial parameter vector returns, and the field carries the first two entries
    of the initial guess, each added to zero, at every selected patch and
    zero at every other one. *)
Theorem initial_flow_field (self : Solver) (events : list Event)
    (idx : list nat) :
  is_poisson_model self = false → is_angle_model self = false →
  dim_in (length _initialize_velocity) [2; 4]%nat = true →
  n_patch self = ((patch_image_size self).1 * (patch_image_size self).2)%nat →
  select_indices Event crop_event self events = Ok idx →
  idx ≠ [] →
  ∃ t, _get_patch_flow SobelTorch (prepared self idx) (initial_parameters idx)
       = Ok t
    ∧ shape t = grid_shape self 2
    ∧ ∀ i, (i < n_patch self)%nat →
        data t !! i
        = Some (if bool_decide (i ∈ idx)
                then s_add s_zero (default s_zero (_initialize_velocity !! 0%nat))
                else s_zero)
        ∧ data t !! (n_patch self + i)%nat
          = Some (if bool_decide (i ∈ idx)
                  then s_add s_zero
                         (default s_zero (_initialize_velocity !! 1%nat))
                  else s_zero).
Proof.
  intros Hp Hang Hdim Hgrid Hsel Hsome.
  set (dim := length _initialize_velocity) in *.
  assert (1 < dim)%nat as Hd1.
  { unfold dim_in in Hdim. apply bool_decide_eq_true in Hdim.
    apply elem_of_cons in Hdim as [->|Hdim]; [lia|].
    apply list_elem_of_singleton in Hdim as ->. lia. }
  assert (NoDup idx) as Hnd.
  { rewrite (select_filter Event crop_event _ _ _ Hsel).
    apply strongly_sorted_NoDup, filter_strongly_sorted, seq_strongly_sorted. }
  assert (Forall (λ i, (i < n_patch self)%nat) idx) as Hall.
  { apply Forall_forall. intros i Hi.
    by apply (elem_of_select Event crop_event _ _ _ i Hsel) in Hi as [Hn _]. }
  set (blocks := replicate (length idx) _initialize_velocity).
  assert (Forall (λ b, length b = dim) blocks) as Hb.
  { by apply Forall_replicate. }
  assert (∀ r, length (map (λ b : list A, default s_zero (b !! r)) blocks)
               = length idx) as Hrow.
  { intros r. unfold blocks. by rewrite length_map, length_replicate. }
  destruct (scatter_two_rows (n_patch self) idx _ _ Hall Hnd
              (Hrow 0%nat) (Hrow 1%nat))
    as (t1 & t2 & Ht1 & Ht2 & Hl & Hx & Hy).
  exists (mkTensor (grid_shape self 2) (data t2)). split.
  { unfold _get_patch_flow, initial_parameters. simpl.
    rewrite Hp, Hang. fold dim. rewrite Hdim. fold blocks.
    rewrite reshape_T_concat by (done || lia). simpl.
    rewrite !row_at_seq by lia. simpl.
    rewrite Ht1. simpl. rewrite Ht2. simpl.
    unfold reshape.
    match goal with
    | |- (if (?a =? ?b)%nat then _ else _) = _ =>
        destruct (Nat.eqb_spec a b) as [_|Hne]
    end; [done|].
    exfalso. apply Hne. rewrite Hl, Hgrid. unfold grid_shape. simpl. lia. }
  split; [done|]. simpl. intros i Hi.
  destruct (bool_decide_reflect (i ∈ idx)) as [Hin|Hout].
  - apply list_elem_of_lookup_1 in Hin as [j Hj].
    assert (map (λ b : list A, default s_zero (b !! 0%nat)) blocks !! j
            = Some (default s_zero (_initialize_velocity !! 0%nat))
            ∧ map (λ b : list A, default s_zero (b !! 1%nat)) blocks !! j
              = Some (default s_zero (_initialize_velocity !! 1%nat)))
      as [H0' H1'].
    { apply lookup_lt_Some in Hj.
      change (map ?f blocks) with (f <$> blocks). unfold blocks.
      rewrite !list_lookup_fmap, lookup_replicate_2 by done. done. }
    split; [by eapply Hx|by eapply Hy].
  - assert (zero_off (n_patch self) 2 idx (data t2)) as Hz.
    { eapply iadd_row_zero_off; [exact Ht2|].
      eapply iadd_row_zero_off; [exact Ht1|]. apply zeros_zero_off. }
    split.
    + apply (Hz 0%nat i); [lia|done|done].
    + replace (n_patch self + i)%nat with (1 * n_patch self + i)%nat by lia.
      apply (Hz 1%nat i); [lia|done|done].
Qed.

End InitialField.

(** * Further properties of the prediction *)

Section PredictionContract.
Context {A : Type} `{Scalar A} `{Trig A} `{LinalgNorm A}.
Variable SobelTorch : Tensor A → result (Tensor A).
Variable interpolate_dense_flow_from_patch_tensor :
  Tensor A → result (Dense A).
Variable _gradient_x_torch : Matrix A.
Variable _gradient_y_torch : Matrix A.
Variable warp_image_forward : Matrix A → Dense A → result (Matrix A).

Abbreviation predict :=
  (_make_prediction_torch SobelTorch interpolate_dense_flow_from_patch_tensor
     _gradient_x_torch _gradient_y_torch warp_image_forward).

(** X14.  A prediction that returns was made with a dimension that the flow
    decode accepts and, when [optimize_warp] is set, that the translation
    decode accepts as well: with the warp, three entries to the block for
    the intensity or the angle model and four for plain velocity, and no
    prediction returns with one or two. *)
Theorem prediction_returns_with_valid_dimension (self : Solver)
    (parameters : list A) (roi : Roi) (weights : option (Matrix A)) :
  returns (predict self parameters roi weights) →
  flow_dim_valid self = true
  ∧ (optimize_warp self = true →
     translation_dim_valid self = true
     ∧ n_parameter_dim self
       = if is_poisson_model self || is_angle_model self then 3%nat
         else 4%nat).
Proof.
  intros [p Hp]. unfold _make_prediction_torch in Hp. cbv zeta in Hp.
  apply bind_Ok in Hp as (flow & Hflow & Hp).
  unfold _extrapolate_dense_flow_from_estimates in Hflow.
  apply bind_Ok in Hflow as (t & Ht & _).
  split.
  { apply (decode_returns_valid SobelTorch self parameters). by exists t. }
  intros Hw. rewrite Hw in Hp.
  apply bind_Ok in Hp as (g & Hg & _).
  apply bind_Ok in Hg as (tr & Htr & _).
  unfold _extrapolate_dense_translation_from_estimates in Htr.
  apply bind_Ok in Htr as (t' & Ht' & _).
  assert (translation_dim_valid self = true) as Hv.
  { apply (decode_returns_valid SobelTorch self parameters). by exists t'. }
  split; [done|]. unfold translation_dim_valid in Hv.
  destruct (is_poisson_model self || is_angle_model self);
    by apply Nat.eqb_eq in Hv.
Qed.

End PredictionContract.

(** ** The sign of the prediction on binary64 *)

Lemma binary_round_aux_sign_clear (m e : Z) (l : location) :
  sign_clear (binary_round_aux prec emax false m e l).
Proof.
  unfold binary_round_aux.
  destruct (shr_fexp prec emax m e l) as [mrs' e'].
  destruct (shr_fexp prec emax _ e' loc_Exact) as [mrs'' e''].
  destruct (shr_m mrs''); simpl; try done.
  by destruct (_ <=? _).
Qed.

Lemma binary_round_sign_clear (m : positive) (e : Z) :
  sign_clear (binary_round prec emax false m e).
Proof.
  unfold binary_round. destruct (shl_align m e _) as [mz ez].
  apply binary_round_aux_sign_clear.
Qed.

Lemma SFabs_sign_clear (x : spec_float) : sign_clear (SFabs x).
Proof. by destruct x. Qed.

(** A value that is not below zero, plus a positive one. *)
Lemma SFadd_sign_clear (x : spec_float) (m : positive) (e : Z) :
  SFltb x (S754_zero false) = false →
  sign_clear (SFadd prec emax x (S754_finite false m e)).
Proof.
  destruct x as [s|s| |s mx ex]; simpl; try done.
  - by destruct s.
  - destruct s; [done|]. intros _. simpl.
    set (a := fst (shl_align mx ex (Z.min ex e))).
    set (b := fst (shl_align m e (Z.min ex e))).
    apply binary_round_sign_clear.
Qed.

Lemma SFdiv_sign_clear (x y : spec_float) :
  sign_clear x → sign_clear y → sign_clear (SFdiv prec emax x y).
Proof.
  destruct x as [sx|sx| |sx mx ex], y as [sy|sy| |sy my ey]; simpl;
    try done; try (by intros -> ->).
  intros -> ->. simpl.
  destruct (SFdiv_core_binary prec emax _ ex _ ey) as [[mz ez] lz].
  apply binary_round_aux_sign_clear.
Qed.

Lemma sign_clear_not_negative (x : spec_float) :
  sign_clear x → SFltb x (S754_zero false) = false.
Proof. destruct x as [s|s| |s m e]; simpl; try done; by intros ->. Qed.

(** An absolute value over a norm that is not negative plus [0.0001]. *)
Lemma abs_over_norm_plus_eps (d n : float) :
  (n <? 0)%float = false →
  (PrimFloat.abs d / (n + 0x1.a36e2eb1c432dp-14) <? 0)%float = false.
Proof.
  intros Hn. rewrite FloatAxioms.ltb_spec in Hn |- *.
  change (Prim2SF 0) with (S754_zero false) in *.
  apply sign_clear_not_negative.
  rewrite FloatAxioms.div_spec, FloatAxioms.abs_spec, FloatAxioms.add_spec.
  apply SFdiv_sign_clear; [apply SFabs_sign_clear|].
  match goal with
  | |- context [Prim2SF ?c] =>
      lazymatch c with
      | n => fail
      | _ => let v := eval vm_compute in (Prim2SF c) in
             change (Prim2SF c) with v
      end
  end.
  by apply SFadd_sign_clear.
Qed.

Section PredictionSign.
Context `{Trig float} `{LinalgNorm float}.
Variable SobelTorch : Tensor float → result (Tensor float).
Variable interpolate_dense_flow_from_patch_tensor :
  Tensor float → result (Dense float).
Variable _gradient_x_torch : Matrix float.
Variable _gradient_y_torch : Matrix float.
Variable warp_image_forward :
  Matrix float → Dense float → result (Matrix float).

(** X16.  On binary64, with [no_polarity] set and no weights: where the
    norm that torch takes of the increment is not below zero, as a norm
    never is, no entry of a prediction that returns is below zero; each is
    positive, a zero or a NaN. *)
Theorem prediction_not_negative_without_polarity (self : Solver)
    (parameters : list float) (roi : Roi) (p : Matrix float) :
  no_polarity self = true →
  _make_prediction_torch SobelTorch interpolate_dense_flow_from_patch_tensor
    _gradient_x_torch _gradient_y_torch warp_image_forward
    self parameters roi None = Ok p →
  ∃ u,
    unnormalized_increment SobelTorch interpolate_dense_flow_from_patch_tensor
      _gradient_x_torch _gradient_y_torch warp_image_forward
      self parameters roi None = Ok u
    ∧ ((linalg_norm u <? 0)%float = false →
       all_entries (λ v, (v <? 0)%float = false) p).
Proof.
  intros Hnp Hp.
  rewrite prediction_normalizes in Hp.
  apply bind_Ok in Hp as (u & Hu & [= <-]).
  exists u. split; [done|]. intros Hn.
  unfold unnormalized_increment in Hu. inv_bind Hu.
  rewrite Hnp in Hu. simpl in Hu. injection Hu as <-.
  unfold normalize_stage, all_entries, mat_map in *.
  apply Forall_fmap, Forall_fmap, Forall_forall. intros row _. simpl.
  apply Forall_fmap, Forall_fmap, Forall_forall. intros d _. simpl.
  by apply abs_over_norm_plus_eps.
Qed.

End PredictionSign.

(** * Debug logging and the estimate *)

Section DebugLogging.
Context {A : Type} `{Scalar A} `{Trig A} `{LinalgNorm A}.
Variable Event : Type.
Variable crop_event : list Event → Z → Z → Z → Z → list Event.
Variable SobelTorch : Tensor A → result (Tensor A).
Variable interpolate_dense_flow_from_patch_tensor :
  Tensor A → result (Dense A).
Variable interpolate_dense_poisson_from_patch_tensor :
  Tensor A → result (Dense A).
Variable _gradient_x_torch : Matrix A.
Variable _gradient_y_torch : Matrix A.
Variable warp_image_forward : Matrix A → Dense A → result (Matrix A).
Variable _initialize_velocity : list A.
Variable _make_measured_increment :
  Solver → list Event → Roi → result (Matrix A * option (Matrix A)).
Variable cost_func : Matrix A → Matrix A → option (Matrix A) → result float.
Variable loss_backward :
  Solver → list A → Matrix A → Roi → option (Matrix A) → result (list A).
Variable Optimizer : Type.
Variable optimizer_new : float → nat → float → Optimizer.
Variable optimizer_step : Optimizer → list A → list A → Optimizer * list A.
Variable scheduler_step : Optimizer → Optimizer.
Variable visualize_flow : Dense A → result unit.
Variable visualize_poisson : Dense A → result unit.
Variable visualize_diff : Matrix A → Matrix A → result unit.

Abbreviation visualize_at debug :=
  (visualize_evolution SobelTorch interpolate_dense_flow_from_patch_tensor
     interpolate_dense_poisson_from_patch_tensor
     _gradient_x_torch _gradient_y_torch warp_image_forward
     debug visualize_flow visualize_poisson visualize_diff).
Abbreviation loop_at debug :=
  (optimize SobelTorch interpolate_dense_flow_from_patch_tensor
     interpolate_dense_poisson_from_patch_tensor
     _gradient_x_torch _gradient_y_torch warp_image_forward
     cost_func loss_backward Optimizer optimizer_step scheduler_step
     debug visualize_flow visualize_poisson visualize_diff).
Abbreviation estimate_at debug :=
  (estimate Event crop_event SobelTorch
     interpolate_dense_flow_from_patch_tensor
     interpolate_dense_poisson_from_patch_tensor
     _gradient_x_torch _gradient_y_torch warp_image_forward
     _initialize_velocity _make_measured_increment
     cost_func loss_backward Optimizer optimizer_new optimizer_step
     scheduler_step debug visualize_flow visualize_poisson
     visualize_diff).

Lemma visualize_without_debug (self : Solver) (params : list A)
    (m : Matrix A) (weights : option (Matrix A)) (roi : Roi) :
  visualize_at false self params m weights roi = Ok tt.
Proof. done. Qed.

Lemma loop_without_debug (debug : bool) (self : Solver) (x0 : loc)
    (m : Matrix A) (roi : Roi) (weights : option (Matrix A))
    (range : list nat) (st st' : LoopState Optimizer) :
  loop_at debug self x0 m roi weights range st = Ok st' →
  loop_at false self x0 m roi weights range st = Ok st'.
Proof.
  revert st. induction range as [|it range IH]; intros st; [done|].
  cbn [optimize]. cbv zeta.
  intros (loss & Hloss & Hrest)%bind_Ok. rewrite Hloss, bind_Ok_l.
  apply bind_Ok in Hrest as ([] & _ & Hrest).
  rewrite visualize_without_debug, bind_Ok_l.
  destruct (loss_backward _ _ _ _ _) as [g|e]; [|done].
  by apply IH.
Qed.

(** X17.  Debug logging does not change the estimate: whenever [estimate]
    returns with some state of the debug switch, it returns the same dense
    flow and the same solver with debug logging off.  The visualisation of
    an iterate can add an exception and nothing else. *)
Theorem estimate_same_without_debug (debug : bool) (self : Solver)
    (events : list Event) (r : Dense A * Solver) :
  estimate_at debug self events = Ok r →
  estimate_at false self events = Ok r.
Proof.
  unfold estimate. cbv zeta.
  intros (idx & Hidx & Hr)%bind_Ok. rewrite Hidx, bind_Ok_l.
  apply bind_Ok in Hr as (x0 & Hx0 & Hr). rewrite Hx0, bind_Ok_l.
  apply bind_Ok in Hr as (m & Hm & Hr). rewrite Hm, bind_Ok_l.
  apply bind_Ok in Hr as (st & Hst & Hr).
  by rewrite (loop_without_debug _ _ _ _ _ _ _ _ _ Hst), bind_Ok_l.
Qed.

End DebugLogging.

(** ** The further properties at the instances *)

(** One block of four parameters for the first of two patches. *)
Lemma velocity_blocks_round_trip_witness :
  ∃ t, _get_patch_flow ex_sobel (two_patches false 4) [3; 4; 5; 6]%float
       = Ok t
    ∧ shape t = [2%nat; 1%nat; 2%nat].
Proof.
  destruct (velocity_blocks_round_trip ex_sobel (two_patches false 4)
              [[3; 4; 5; 6]%float]) as [(t & Ht & Hs & _) _].
  - reflexivity.
  - reflexivity.
  - reflexivity.
  - repeat constructor.
  - discriminate.
  - reflexivity.
  - repeat constructor.
  - apply NoDup_singleton.
  - reflexivity.
  - exists t. split; [exact Ht|exact Hs].
Defined.

(** One block of three parameters with the intensity model. *)
Lemma intensity_blocks_round_trip_witness :
  ∃ t, _get_patch_poisson (two_patches true 3) [3; 4; 5]%float = Ok t
    ∧ shape t = [1%nat; 1%nat; 2%nat].
Proof.
  destruct (intensity_blocks_round_trip (two_patches true 3)
              [[3; 4; 5]%float]) as [(t & Ht & Hs & _) _].
  - reflexivity.
  - reflexivity.
  - repeat constructor.
  - discriminate.
  - reflexivity.
  - repeat constructor.
  - apply NoDup_singleton.
  - reflexivity.
  - exists t. split; [exact Ht|exact Hs].
Defined.

Lemma decoded_field_fits_grid_witness :
  shape (mkTensor [2%nat; 1%nat; 2%nat] [3; 0; 4; 0]%float)
  = grid_shape (two_patches false 2) 2
  ∧ n_patch (two_patches false 2) = (1 * 2)%nat.
Proof.
  destruct (decoded_field_fits_grid ex_sobel (two_patches false 2)
              [3; 4]%float 2
              (mkTensor [2%nat; 1%nat; 2%nat] [3; 0; 4; 0]%float))
    as (Hs & _ & Hg).
  - left. split; [reflexivity|]. split; reflexivity.
  - split; [exact Hs|exact Hg].
Defined.

(** The selection among the three patches and the initial guess (0, 0). *)
Lemma initial_flow_field_witness :
  ∃ t, _get_patch_flow ex_sobel (prepared ex_init sel_solver [0%nat])
         (initial_parameters ex_init [0%nat]) = Ok t
    ∧ shape t = grid_shape sel_solver 2.
Proof.
  destruct (initial_flow_field (Z * Z) crop_box ex_sobel ex_init sel_solver
              sel_events [0%nat]) as (t & Ht & Hs & _).
  - reflexivity.
  - reflexivity.
  - reflexivity.
  - reflexivity.
  - reflexivity.
  - discriminate.
  - exists t. split; [exact Ht|exact Hs].
Defined.

Lemma prediction_returns_with_valid_dimension_witness :
  flow_dim_valid (prepared ex_init (ex_solver 1) [0%nat]) = true.
Proof.
  apply (prediction_returns_with_valid_dimension ex_sobel ex_interpolate
           ex_gx ex_gy ex_warp (prepared ex_init (ex_solver 1) [0%nat])
           [0; 0]%float (mkRoi 0 1 0 1) None).
  eexists. vm_compute. reflexivity.
Defined.

(** The velocity (-3, 4) against the gradients (1, 0), with [no_polarity]. *)
Lemma prediction_not_negative_without_polarity_witness :
  ∃ p,
    _make_prediction_torch ex_sobel ex_interpolate ex_gx ex_gy ex_warp
      abs_solver [-3; 4]%float (mkRoi 0 1 0 1) None = Ok p
    ∧ all_entries (λ v, (v <? 0)%float = false) p.
Proof.
  assert (_make_prediction_torch ex_sobel ex_interpolate ex_gx ex_gy ex_warp
            abs_solver [-3; 4]%float (mkRoi 0 1 0 1) None
          = Ok [[(3 / (3 + 0x1.a36e2eb1c432dp-14))%float]]) as Hp.
  { vm_compute. reflexivity. }
  destruct (prediction_not_negative_without_polarity ex_sobel ex_interpolate
              ex_gx ex_gy ex_warp abs_solver [-3; 4]%float (mkRoi 0 1 0 1)
              _ eq_refl Hp) as (u & Hu & Hz).
  eexists. split; [exact Hp|]. apply Hz.
  vm_compute in Hu. injection Hu as <-. vm_compute. reflexivity.
Defined.

(** One iteration with debug logging on and sinks that return. *)
Lemma estimate_same_without_debug_witness :
  ∃ r, ex_estimate target_04 never 1 = Ok r.
Proof.
  eexists.
  apply (estimate_same_without_debug unit ex_crop_event ex_sobel
           ex_interpolate ex_interpolate ex_gx ex_gy ex_warp ex_init
           (ex_measured target_04) ex_cost (ex_backward never) Sgd sgd_new
           sgd_step step_lr ex_sink_d ex_sink_d ex_sink_m true
           (ex_solver 1) []).
  vm_compute. reflexivity.
Defined.
